(** * Pyramid Solitaire: the game-state engine

    A shallow embedding of [AbstractPyramidSolitaire.ts],
    [AbstractSinglePyramidSolitaireModel.ts], [Card.ts], [Suit.ts] and
    [GameState.ts], followed by the properties of the engine.

    Conventions of the embedding:
    - a JavaScript [number] used as a rank or as an index is an integer [Z];
    - [null] and [undefined] are both [None] (the code only ever tests
      [== null], which does not tell them apart), so an array of cards is a
      [list (option Card)];
    - a method that only reads [this] is a function [Model -> outcome A];
      a method that assigns to [this] is a function
      [Model -> outcome A * Model] whose second component is the engine
      after the call, also when the call throws: an assignment made before
      a [throw] stays made;
    - every [throw new Error(...)] is mapped to the error kind of its
      message; dereferencing [null] raises [TypeError]. *)

From Stdlib Require Import ZArith Lia Permutation.
From stdpp Require Import base relations list strings pretty.

(** ** Cards *)

(** [GameState.ts] *)
Inductive GameState := NOT_STARTED | STARTED.

(** [Suit.ts] *)
Inductive Suit := HEART | SPADE | CLUB | DIAMOND.

(** [Card.ts]: the fields [suit] and [value]. *)
Record Card := mkCard { suit : Suit; value : Z }.

#[global] Instance Suit_eq_dec : EqDecision Suit.
Proof. solve_decision. Defined.

#[global] Instance Card_eq_dec : EqDecision Card.
Proof. solve_decision. Defined.

(** A slot of an array of cards: a card, or [null]/[undefined]. *)
Abbreviation slot := (option Card).

Definition getValue (this : Card) : Z := value this.

(** [Card.equals]: [this == obj] (the same object) implies the structural
    test of the last line, so the three branches collapse into: [obj] is a
    card with the same value and suit. *)
Definition equals (this : Card) (obj : slot) : bool :=
  match obj with
  | None => false
  | Some that => (value this =? value that)%Z && bool_decide (suit this = suit that)
  end.

(** ** Errors and results *)

Inductive error :=
  | InvalidDeck        (* "The deck cannot be null." *)
  | InsufficientCards  (* "Not enough cards in this deck for this deal." *)
  | InvalidLayout      (* "Rows and draws cannot be zero.", "Number of rows cannot be
                          negative or zero.", "Number of draw cards cannot be negative." *)
  | NotStarted         (* "The game has not yet started." *)
  | OutOfBounds        (* "The given row index is out of bounds." and the like *)
  | EmptySlot          (* "No card at the given index." and the like *)
  | InvalidMove        (* "... does not have a value of 13 ...", "... do not sum to ..." *)
  | Covered            (* "The card at the given index is covered ..." *)
  | TypeError.         (* a method called on null *)

Inductive outcome (A : Type) :=
  | Ok (a : A)
  | Throw (e : error).
Arguments Ok {A} a.
Arguments Throw {A} e.

Definition bindO {A B} (c : outcome A) (k : A -> outcome B) : outcome B :=
  match c with
  | Ok a => k a
  | Throw e => Throw e
  end.

Declare Scope outcome_scope.
Delimit Scope outcome_scope with O.
Notation "x <- c ;; k" := (bindO c (fun x => k))
  (at level 100, c at next level, right associativity) : outcome_scope.
Notation "c ;; k" := (bindO c (fun _ => k))
  (at level 100, right associativity) : outcome_scope.

(** [if (cond) { throw e }] *)
Definition throwIf (cond : bool) (e : error) : outcome unit :=
  if cond then Throw e else Ok tt.

(** ** Arrays *)

(** [arr.length] *)
Definition len {A} (arr : list A) : Z := Z.of_nat (length arr).

(** [arr[i]] for an array of cards: [undefined] outside the array. *)
Definition at_ (arr : list slot) (i : Z) : slot :=
  if (i <? 0)%Z then None else mjoin (arr !! Z.to_nat i).

(** The indices [0 .. n-1] of a loop [for (i = 0; i < n; i += 1)]. *)
Definition range (n : Z) : list nat := seq 0 (Z.to_nat n).

(** [arr.forEach(callback)] for a callback that updates the captured
    variable(s) [s]. *)
Definition forEach {A S} (arr : list A) (callback : A -> S -> S) (s : S) : S :=
  fold_left (fun s x => callback x s) arr s.

(** [arr.forEach(callback)] for a callback that updates nothing: the value
    the callback returns is dropped by [forEach]. *)
Definition forEach_ {A R} (arr : list A) (callback : A -> R) : unit :=
  fold_left (fun _ x => let _ := callback x in tt) arr tt.

(** A loop whose body may throw, threading the variables [s]. *)
Fixpoint forM {A S} (l : list A) (body : A -> S -> outcome S) (s : S) : outcome S :=
  match l with
  | [] => Ok s
  | x :: l => bindO (body x s) (forM l body)
  end.

(** ** The engine state *)

(** The fields of [AbstractPyramidSolitaire]. Before [startGame] the three
    arrays are unassigned; no method reads them while [gamestate] is
    [NOT_STARTED], and [constructor] holds empty arrays in their place. *)
Record Model := mkModel {
  pyramid : list (list slot);
  stock : list slot;
  draws : list slot;
  gamestate : GameState
}.

Definition removalValue : Z := 13.

Definition constructor : Model :=
  {| pyramid := []; stock := []; draws := []; gamestate := NOT_STARTED |}.

(** [this.pyramid[row]], read only where [row] is known to be in bounds. *)
Definition rowAt (this : Model) (row : Z) : list slot :=
  default [] (pyramid this !! Z.to_nat row).

(** [this.pyramid[row][card] = null], written only where [(row, card)] is
    known to be in bounds. *)
Definition clearSlot (row card : Z) (this : Model) : Model :=
  {| pyramid := alter (fun r => <[Z.to_nat card := None]> r) (Z.to_nat row) (pyramid this);
     stock := stock this;
     draws := draws this;
     gamestate := gamestate this |}.

Section Queries.
Local Open Scope Z_scope.
Local Open Scope outcome_scope.

Definition checkStarted (this : Model) : outcome unit :=
  match gamestate this with
  | NOT_STARTED => Throw NotStarted
  | STARTED => Ok tt
  end.

Definition isRowInBounds (row : Z) (this : Model) : bool :=
  (row <? len (pyramid this)) && (row >=? 0).

Definition isCardInBounds (row card : Z) (this : Model) : bool :=
  isRowInBounds row this && (card <? len (rowAt this row)) && (card >=? 0).

Definition getCardAt (row card : Z) (this : Model) : outcome slot :=
  checkStarted this ;;
  throwIf (negb (isRowInBounds row this)) OutOfBounds ;;
  throwIf (negb (isCardInBounds row card this)) OutOfBounds ;;
  Ok (at_ (rowAt this row) card).

Definition isCovered (row card : Z) (this : Model) : outcome bool :=
  throwIf ((row >=? len (pyramid this)) || (row <? 0)) OutOfBounds ;;
  throwIf ((card >=? len (rowAt this row)) || (card <? 0)) OutOfBounds ;;
  if row =? len (pyramid this) - 1 then Ok false
  else
    below <- getCardAt (row + 1) card this ;;
    if bool_decide (below <> None) then Ok true
    else
      belowRight <- getCardAt (row + 1) (card + 1) this ;;
      Ok (bool_decide (belowRight <> None)).

(** The callbacks' [return false] leaves the callback, not [isGameWon]:
    the method returns [true] after the two loops. *)
Definition isGameWon (this : Model) : bool :=
  let _ := forEach_ (pyramid this) (fun row =>
             forEach_ row (fun card : slot =>
               if bool_decide (card <> None) then Some false else None)) in
  true.

Definition allDiscarded (this : Model) : bool :=
  let _ := forEach_ (draws this) (fun card : slot =>
             if bool_decide (card <> None) then Some false else None) in
  true.

Definition getNumRows (this : Model) : Z :=
  match gamestate this with
  | NOT_STARTED => -1
  | STARTED => len (pyramid this)
  end.

Definition getNumDraw (this : Model) : Z :=
  match gamestate this with
  | NOT_STARTED => -1
  | STARTED => len (draws this)
  end.

Definition getRowWidth (row : Z) (this : Model) : outcome Z :=
  checkStarted this ;;
  throwIf (negb (isRowInBounds row this)) OutOfBounds ;;
  Ok (len (rowAt this row)).

Definition getDrawCards (this : Model) : outcome (list slot) :=
  checkStarted this ;;
  Ok (forEach (draws this) (fun card drawsCopy => drawsCopy ++ [card]) []).

(** [BasicPyramidSolitaire.getPyramid] *)
Definition getPyramid (this : Model) : list (list slot) :=
  forEach (pyramid this) (fun row result =>
    result ++ [forEach row (fun card rowCopy => rowCopy ++ [card]) []]) [].

Definition canBeRemoved (cards : list Card) : bool :=
  existsb (fun index =>
    match cards !! index with
    | Some c => getValue c =? removalValue
    | None => false
    end) (range (len cards)).

Definition canAddToRemovalValue (cards : list Card) : bool :=
  existsb (fun card1 =>
    existsb (fun card2 =>
      negb (card1 =? card2)%nat &&
      match cards !! card1, cards !! card2 with
      | Some c1, Some c2 => getValue c1 + getValue c2 =? removalValue
      | _, _ => false
      end) (range (len cards))) (range (len cards)).

Definition getUncovered (this : Model) : outcome (list Card) :=
  forM (range (len (pyramid this))) (fun row uncovered =>
    forM (range (len (rowAt this (Z.of_nat row)))) (fun card uncovered =>
      c <- getCardAt (Z.of_nat row) (Z.of_nat card) this ;;
      match c with
      | None => Ok uncovered
      | Some c =>
          covered <- isCovered (Z.of_nat row) (Z.of_nat card) this ;;
          if covered then Ok uncovered else Ok (uncovered ++ [c])
      end) uncovered) [].

Definition isGameOver (this : Model) : outcome bool :=
  checkStarted this ;;
  if isGameWon this then Ok true
  else
    let _ := forEach_ (draws this) (fun value : slot =>
               if bool_decide (value <> None) then Some false else None) in
    uncovered <- getUncovered this ;;
    if canBeRemoved uncovered then Ok false
    else if canAddToRemovalValue uncovered then Ok false
    else Ok (negb ((getNumDraw this >? 0) && (len (stock this) >? 0))).

Definition getScore (this : Model) : outcome Z :=
  checkStarted this ;;
  if isGameWon this then Ok 0
  else
    Ok (forEach (pyramid this) (fun row result =>
          forEach row (fun card result =>
            match card with
            | Some c => result + getValue c
            | None => result
            end) result) 0).
End Queries.

(** ** Decks and dealing ([AbstractSinglePyramidSolitaireModel.ts]) *)

Section Dealing.
Local Open Scope Z_scope.
Local Open Scope outcome_scope.

Definition getDeck : list Card :=
  let suits := [HEART; SPADE; CLUB; DIAMOND] in
  forEach suits (fun suit deck =>
    fold_left (fun deck x => deck ++ [mkCard suit (Z.of_nat x)]) (seq 1 13) deck) [].

(** The inner loop of [isValidDeck] at a fixed [index]: [Ok true] when it
    reaches its [return false]. [deck[index].equals(...)] is a call on
    [null] when the slot at [index] is empty. *)
Fixpoint findDuplicate (deck : list slot) (index : nat) (jindexes : list nat) : outcome bool :=
  match jindexes with
  | [] => Ok false
  | jindex :: jindexes =>
      if negb (index =? jindex)%nat then
        match at_ deck (Z.of_nat index) with
        | None => Throw TypeError
        | Some c =>
            if equals c (at_ deck (Z.of_nat jindex)) then Ok true
            else findDuplicate deck index jindexes
        end
      else findDuplicate deck index jindexes
  end.

(** The outer loop of [isValidDeck] over the remaining [indexes], and the
    final size test. *)
Fixpoint isValidDeck_from (deck : list slot) (indexes : list nat) : outcome bool :=
  match indexes with
  | [] => Ok (len deck =? len getDeck)
  | index :: indexes =>
      duplicate <- findDuplicate deck index (range (len deck)) ;;
      if duplicate then Ok false
      else if bool_decide (at_ deck (Z.of_nat index) = None) then Ok false
      else isValidDeck_from deck indexes
  end.

Definition isValidDeck (deck : list slot) : outcome bool :=
  isValidDeck_from deck (range (len deck)).

Definition isEnoughCards (deckSize numRows numDraws : Z) : bool :=
  let pyramidSize := (numRows * (numRows + 1)) / 2 in
  pyramidSize + numDraws <=? deckSize.

(** [shuffle]: the loop [while (0 !== currentIndex)]. [Math.random()] is
    an oracle [rng]: at the iteration entered with [currentIndex],
    [Math.floor(Math.random() * currentIndex)] is some index below
    [currentIndex], here [rng currentIndex mod currentIndex]. *)
Fixpoint shuffle_from (rng : nat -> nat) (currentIndex : nat) (array : list slot) : list slot :=
  match currentIndex with
  | O => array
  | S next =>
      let randomIndex := (rng currentIndex `mod` currentIndex)%nat in
      let temporaryValue := at_ array (Z.of_nat next) in
      let array := <[next := at_ array (Z.of_nat randomIndex)]> array in
      let array := <[randomIndex := temporaryValue]> array in
      shuffle_from rng next array
  end.

Definition shuffle (rng : nat -> nat) (array : list slot) : list slot :=
  shuffle_from rng (length array) array.

(** [result[row].push(deck[0]); deck.shift();] *)
Definition dealOne (row : nat) (st : list (list slot) * list slot) : list (list slot) * list slot :=
  let '(result, deck) := st in
  (alter (fun r => r ++ [at_ deck 0]) row result, tail deck).

(** [dealCards] shifts cards out of the array it is given: it returns the
    pyramid together with that array as it leaves it. *)
Definition dealCards (rng : nat -> nat) (numRows : Z) (deck : list slot) (doShuffle : bool)
  : list (list slot) * list slot :=
  let result := fold_left (fun result _ => result ++ [[]]) (range numRows) [] in
  let deck := if doShuffle then shuffle rng deck else deck in
  fold_left (fun st row =>
    fold_left (fun st _ => dealOne row st) (seq 0 (S row)) st)
    (range numRows) (result, deck).

(** [this.draws.push(deckCopy[0]); deckCopy.shift();] *)
Definition drawOne (st : list slot * list slot) : list slot * list slot :=
  let '(draws, deckCopy) := st in
  (draws ++ [at_ deckCopy 0], tail deckCopy).

(** The five guards at the head of [startGame], in order, for a deck that
    is not [null]. *)
Definition startGuards (deck : list slot) (numRows numDraw : Z) : outcome unit :=
  valid <- isValidDeck deck ;;
  throwIf (negb valid) InvalidDeck ;;
  throwIf (negb (isEnoughCards (len deck) numRows numDraw)) InsufficientCards ;;
  throwIf ((numRows =? 0) && (numDraw =? 0)) InvalidLayout ;;
  throwIf (numRows <=? 0) InvalidLayout ;;
  throwIf (numDraw <? 0) InvalidLayout.

(** [startGame]. The result is the outcome, the engine after the call and
    the caller's [deck] array after the call. *)
Definition startGame (rng : nat -> nat) (deck : option (list slot)) (doShuffle : bool)
    (numRows numDraw : Z) (this : Model) : outcome unit * Model * option (list slot) :=
  match deck with
  | None => (Throw InvalidDeck, this, deck)
  | Some cards =>
      match startGuards cards numRows numDraw with
      | Throw e => (Throw e, this, deck)
      | Ok _ =>
          let deckCopy := forEach cards (fun value deckCopy => deckCopy ++ [value]) [] in
          let '(dealt, deckCopy) := dealCards rng numRows deckCopy doShuffle in
          let '(drawn, deckCopy) :=
            fold_left (fun st _ => drawOne st) (range numDraw) ([], deckCopy) in
          (Ok tt,
           {| pyramid := dealt; stock := deckCopy; draws := drawn; gamestate := STARTED |},
           Some cards)
      end
  end.
End Dealing.

(** ** The moves *)

(** A method that may assign to the fields of [this]. *)
Definition M (A : Type) : Type := Model -> outcome A * Model.

Definition bindM {A B} (c : M A) (k : A -> M B) : M B :=
  fun this =>
    match c this with
    | (Ok a, this') => k a this'
    | (Throw e, this') => (Throw e, this')
    end.

(** The current [this]. *)
Definition get : M Model := fun this => (Ok this, this).

(** A call of a method that only reads [this]. *)
Definition query {A} (q : Model -> outcome A) : M A := fun this => (q this, this).

(** [if (cond) { throw e }] *)
Definition throwWhen (cond : bool) (e : error) : M unit := fun this => (throwIf cond e, this).

(** An assignment to a field of [this]. *)
Definition assign (f : Model -> Model) : M unit := fun this => (Ok tt, f this).

Declare Scope engine_scope.
Delimit Scope engine_scope with M.
Notation "x <- c ;; k" := (bindM c (fun x => k))
  (at level 100, c at next level, right associativity) : engine_scope.
Notation "c ;; k" := (bindM c (fun _ => k))
  (at level 100, right associativity) : engine_scope.

(** [c.getValue()] on the result of an array read or of [getCardAt]. *)
Definition valueOf (c : slot) : outcome Z :=
  match c with
  | Some c => Ok (getValue c)
  | None => Throw TypeError
  end.

Section Moves.
Local Open Scope Z_scope.

Definition removeTwoChecks (row1 card1 row2 card2 : Z) (this : Model) : outcome unit :=
  (checkStarted this ;;
   throwIf (negb (isRowInBounds row1 this) || negb (isRowInBounds row2 this)) OutOfBounds ;;
   throwIf (negb (isCardInBounds row1 card1 this) || negb (isCardInBounds row2 card2 this))
           OutOfBounds ;;
   c1 <- getCardAt row1 card1 this ;;
   throwIf (bool_decide (c1 = None)) EmptySlot ;;
   c2 <- getCardAt row2 card2 this ;;
   throwIf (bool_decide (c2 = None)) EmptySlot ;;
   c1 <- getCardAt row1 card1 this ;;
   v1 <- valueOf c1 ;;
   c2 <- getCardAt row2 card2 this ;;
   v2 <- valueOf c2 ;;
   throwIf (negb (v1 + v2 =? removalValue)) InvalidMove)%O.

Definition removeTwo (row1 card1 row2 card2 : Z) : M unit :=
  (query (removeTwoChecks row1 card1 row2 card2) ;;
   covered1 <- query (isCovered row1 card1) ;;
   covered <- (if covered1 : bool then query (fun _ => Ok true)
               else query (isCovered row2 card2)) ;;
   throwWhen covered Covered ;;
   assign (clearSlot row1 card1) ;;
   assign (clearSlot row2 card2))%M.

Definition remove (row card : Z) : M unit :=
  (query checkStarted ;;
   this <- get ;;
   throwWhen (negb (isRowInBounds row this)) OutOfBounds ;;
   throwWhen (negb (isCardInBounds row card this)) OutOfBounds ;;
   c <- query (getCardAt row card) ;;
   throwWhen (bool_decide (c = None)) EmptySlot ;;
   c <- query (getCardAt row card) ;;
   v <- query (fun _ => valueOf c) ;;
   throwWhen (negb (v =? removalValue)) InvalidMove ;;
   covered <- query (isCovered row card) ;;
   throwWhen covered Covered ;;
   assign (clearSlot row card))%M.

(** [this.draws[drawIndex] = (this.stock[0]); this.stock.shift();] *)
Definition replenish (drawIndex : Z) (this : Model) : Model :=
  {| pyramid := pyramid this;
     stock := tail (stock this);
     draws := <[Z.to_nat drawIndex := at_ (stock this) 0]> (draws this);
     gamestate := gamestate this |}.

(** [this.draws[drawIndex] = null;] *)
Definition emptyDraw (drawIndex : Z) (this : Model) : Model :=
  {| pyramid := pyramid this;
     stock := stock this;
     draws := <[Z.to_nat drawIndex := None]> (draws this);
     gamestate := gamestate this |}.

Definition discardDraw (drawIndex : Z) : M unit :=
  (query checkStarted ;;
   this <- get ;;
   throwWhen ((drawIndex <? 0) || (drawIndex >=? len (draws this))) OutOfBounds ;;
   throwWhen (bool_decide (at_ (draws this) drawIndex = None)) EmptySlot ;;
   if len (stock this) >? 0 then assign (replenish drawIndex)
   else assign (emptyDraw drawIndex))%M.

Definition removeUsingDraw (drawIndex row card : Z) : M unit :=
  (query checkStarted ;;
   this <- get ;;
   throwWhen (negb (isRowInBounds row this)) OutOfBounds ;;
   throwWhen (negb (isCardInBounds row card this)) OutOfBounds ;;
   throwWhen ((drawIndex >=? len (draws this)) || (drawIndex <? 0)) OutOfBounds ;;
   c <- query (getCardAt row card) ;;
   throwWhen (bool_decide (c = None)) EmptySlot ;;
   throwWhen (bool_decide (at_ (draws this) drawIndex = None)) EmptySlot ;;
   c <- query (getCardAt row card) ;;
   v1 <- query (fun _ => valueOf c) ;;
   v2 <- query (fun this => valueOf (at_ (draws this) drawIndex)) ;;
   throwWhen (negb (v1 + v2 =? removalValue)) InvalidMove ;;
   covered <- query (isCovered row card) ;;
   throwWhen covered Covered ;;
   assign (clearSlot row card) ;;
   discardDraw drawIndex)%M.
End Moves.

(** ** The public operations as one interface *)

(** A call of a public method of the engine, with its arguments. *)
Inductive operation :=
  | OpStartGame (rng : nat -> nat) (deck : option (list slot)) (doShuffle : bool)
      (numRows numDraw : Z)
  | OpRemove (row card : Z)
  | OpRemoveTwo (row1 card1 row2 card2 : Z)
  | OpRemoveUsingDraw (drawIndex row card : Z)
  | OpDiscardDraw (drawIndex : Z)
  | OpGetScore
  | OpIsGameOver
  | OpGetCardAt (row card : Z)
  | OpGetDrawCards
  | OpGetNumRows
  | OpGetNumDraw
  | OpGetRowWidth (row : Z).

(** What a call returns. *)
Inductive retval :=
  | RVoid
  | RNumber (n : Z)
  | RBoolean (b : bool)
  | RCard (c : slot)
  | RCards (cs : list slot).

Definition returning {A} (wrap : A -> retval) (r : outcome A) : outcome retval :=
  match r with
  | Ok a => Ok (wrap a)
  | Throw e => Throw e
  end.

Definition void {A} (r : outcome A * Model) : outcome retval * Model :=
  (returning (fun _ => RVoid) (fst r), snd r).

Definition exec (op : operation) (this : Model) : outcome retval * Model :=
  match op with
  | OpStartGame rng deck doShuffle numRows numDraw =>
      void (fst (startGame rng deck doShuffle numRows numDraw this))
  | OpRemove row card => void (remove row card this)
  | OpRemoveTwo row1 card1 row2 card2 => void (removeTwo row1 card1 row2 card2 this)
  | OpRemoveUsingDraw drawIndex row card => void (removeUsingDraw drawIndex row card this)
  | OpDiscardDraw drawIndex => void (discardDraw drawIndex this)
  | OpGetScore => (returning RNumber (getScore this), this)
  | OpIsGameOver => (returning RBoolean (isGameOver this), this)
  | OpGetCardAt row card => (returning RCard (getCardAt row card this), this)
  | OpGetDrawCards => (returning RCards (getDrawCards this), this)
  | OpGetNumRows => (Ok (RNumber (getNumRows this)), this)
  | OpGetNumDraw => (Ok (RNumber (getNumDraw this)), this)
  | OpGetRowWidth row => (returning RNumber (getRowWidth row this), this)
  end.

(** The engine after a sequence of calls that all return normally; [None]
    as soon as one of them throws. *)
Fixpoint play (ops : list operation) (this : Model) : option Model :=
  match ops with
  | [] => Some this
  | op :: ops =>
      match exec op this with
      | (Ok _, this') => play ops this'
      | (Throw _, _) => None
      end
  end.

(** The deck of [getDeck] as an array handed to [startGame]. *)
Definition standardDeck : list slot := map Some getDeck.

(** The game of three rows and three draw cards dealt from [getDeck]
    without shuffling. *)
Definition smallGame : Model :=
  snd (fst (startGame (fun _ => O) (Some standardDeck) false 3 3 constructor)).

(** * Properties *)

(** ** What the specification calls things *)

(** Every pyramid slot is empty (the game is won). *)
Definition pyramidCleared (this : Model) : bool :=
  forallb (forallb (fun c : slot => bool_decide (c = None))) (pyramid this).

(** The number of non-empty slots of an array. *)
Fixpoint countNonEmpty (arr : list slot) : nat :=
  match arr with
  | [] => 0
  | Some _ :: arr => S (countNonEmpty arr)
  | None :: arr => countNonEmpty arr
  end.

(** The sum of the ranks of the non-empty pyramid slots. *)
Definition pyramidRankSum (this : Model) : Z :=
  foldr Z.add 0%Z (map (fun c : slot => from_option value 0%Z c) (concat (pyramid this))).

(** The cards in play: non-empty pyramid slots, non-empty draw slots, and
    the stock. *)
Definition cardsInPlay (this : Model) : nat :=
  countNonEmpty (concat (pyramid this)) + countNonEmpty (draws this) + length (stock this).

(** The cards of the draw pile and of the stock. *)
Definition cardsToDraw (this : Model) : nat :=
  countNonEmpty (draws this) + length (stock this).

(** The number of non-empty pyramid slots. *)
Definition pyramidCount (this : Model) : nat := countNonEmpty (concat (pyramid this)).

(** An array without empty slots. *)
Definition filled (arr : list slot) : Prop := Forall (fun c : slot => c <> None) arr.

(** The removed-card count of a sequence of successful operations: the
    number of pyramid slots they clear, one for [remove] and for
    [removeUsingDraw], two for [removeTwo]. *)
Definition removedBy (op : operation) : nat :=
  match op with
  | OpRemove _ _ => 1
  | OpRemoveTwo _ _ _ _ => 2
  | OpRemoveUsingDraw _ _ _ => 1
  | _ => 0
  end.

Definition removedCount (ops : list operation) : nat := sum_list_with removedBy ops.

(** The discarded-card count of a sequence of successful operations: the
    number of draw cards they take out of the draw pile, one for
    [discardDraw] and for [removeUsingDraw]. *)
Definition discardedBy (op : operation) : nat :=
  match op with
  | OpDiscardDraw _ => 1
  | OpRemoveUsingDraw _ _ _ => 1
  | _ => 0
  end.

Definition discardedCount (ops : list operation) : nat := sum_list_with discardedBy ops.

(** The operation is a (re)start of the game. *)
Definition isStart (op : operation) : bool :=
  match op with
  | OpStartGame _ _ _ _ _ => true
  | _ => false
  end.

(** Row [r] of the pyramid has [r + 1] slots: the rows [rows], the first
    of which is row [r], have the lengths [r + 1], [r + 2], ... *)
Fixpoint rowsFrom (r : nat) (rows : list (list slot)) : bool :=
  match rows with
  | [] => true
  | row :: rows => (length row =? S r)%nat && rowsFrom (S r) rows
  end.

Definition pyramidShape (this : Model) : bool := rowsFrom 0 (pyramid this).

(** A started game: an engine that a successful [startGame] has dealt and
    that successful operations have played since. *)
Definition inGame (this : Model) : Prop :=
  exists rng deck doShuffle numRows numDraw this0 this1 ops,
    exec (OpStartGame rng deck doShuffle numRows numDraw) this0 = (Ok RVoid, this1) /\
    play ops this1 = Some this.

(** The standard deck with the king of hearts replaced by a card of rank
    14: fifty-two distinct cards, and no king of hearts. *)
Definition kinglessDeck : list Card := <[12%nat := mkCard HEART 14]> getDeck.

(** A game of one row, whose only card is a king. *)
Definition kingGame : Model :=
  snd (fst (startGame (fun _ => O) (Some (reverse standardDeck)) false 1 3 constructor)).

(** A pyramid slot is uncovered: it is in the last row, or both slots
    directly beneath it, [(row+1, col)] and [(row+1, col+1)], are empty. *)
Definition uncovered (this : Model) (row col : Z) : bool :=
  (row =? len (pyramid this) - 1)%Z ||
  (bool_decide (at_ (rowAt this (row + 1)) col = None) &&
   bool_decide (at_ (rowAt this (row + 1)) (col + 1) = None)).

(** A method that leaves an observation [obs] of the engine, such as the
    lifecycle flag, as it found it. *)
Definition preserves {T A} (obs : Model -> T) (c : M A) : Prop :=
  forall this, obs (snd (c this)) = obs this.

(** ** Vocabulary for the deal and for the cards in play *)

(** The number of cards in the first [r] rows of a pyramid. *)
Fixpoint tri (r : nat) : nat :=
  match r with
  | O => 0
  | S r => tri r + S r
  end.

(** The array that [dealCards] deals from: the deck, shuffled if asked. *)
Definition dealtFrom (rng : nat -> nat) (deck : list slot) (doShuffle : bool) : list slot :=
  if doShuffle then shuffle rng deck else deck.

(** The cards held by the non-empty slots of an array, in order. *)
Definition cardsOf (arr : list slot) : list Card := omap id arr.

(** All cards in play, pyramid first, then the draw pile, then the stock. *)
Definition inPlay (this : Model) : list Card :=
  cardsOf (concat (pyramid this)) ++ cardsOf (draws this) ++ cardsOf (stock this).

(** The two elementary changes that the moves are made of: a pyramid slot
    that holds a card is cleared, or a draw slot that holds a card receives
    the front card of the stock (or [null] when the stock is empty). *)
Inductive move : Model -> Model -> Prop :=
  | move_clear (row col : Z) (c : Card) (this : Model) :
      getCardAt row col this = Ok (Some c) ->
      move this (clearSlot row col this)
  | move_replenish (drawIndex : Z) (c : Card) (front : slot) (rest : list slot)
      (this : Model) :
      gamestate this = STARTED ->
      (0 <= drawIndex < len (draws this))%Z ->
      at_ (draws this) drawIndex = Some c ->
      stock this = front :: rest ->
      move this (replenish drawIndex this)
  | move_empty (drawIndex : Z) (c : Card) (this : Model) :
      gamestate this = STARTED ->
      (0 <= drawIndex < len (draws this))%Z ->
      at_ (draws this) drawIndex = Some c ->
      stock this = [] ->
      move this (emptyDraw drawIndex this).

(** No operation of the sequence is a restart. *)
Definition noRestart (ops : list operation) : bool :=
  forallb (fun op => negb (isStart op)) ops.

(** A short game: the 6 of the last row leaves with the 7 of the draw
    pile, then the second draw card is discarded. *)
Definition firstMoves : list operation := [OpRemoveUsingDraw 0 2 2; OpDiscardDraw 1].

Definition afterFirstMoves : Model := default constructor (play firstMoves smallGame).

(** The largest game: nine rows and seven draw cards use up the deck, the
    stock is empty from the start. *)
Definition fullGame : Model :=
  snd (fst (startGame (fun _ => O) (Some standardDeck) false 9 7 constructor)).

(** The largest game after its first draw card has been discarded. *)
Definition fullGameDiscarded : Model := default constructor (play [OpDiscardDraw 0] fullGame).

(** ** Labels ([Card.toString] and the view's [getMatchingCard]) *)

(** The string value of a [Suit]. *)
Definition suitGlyph (s : Suit) : string :=
  match s with
  | HEART => "♥"
  | SPADE => "♠"
  | CLUB => "♣"
  | DIAMOND => "♦"
  end.

(** [Card.toString]; [pretty] is the decimal numeral of an integer, as
    [String(value)] is. *)
Definition toString (this : Card) : string :=
  if (value this =? 1)%Z then "A" +:+ suitGlyph (suit this)
  else if (value this =? 11)%Z then "J" +:+ suitGlyph (suit this)
  else if (value this =? 12)%Z then "Q" +:+ suitGlyph (suit this)
  else if (value this =? 13)%Z then "K" +:+ suitGlyph (suit this)
  else "" +:+ pretty (value this) +:+ suitGlyph (suit this).

(** How a call of [getMatchingCard] ends: with the card it returns, with
    its own error "No card with the given label", or with the [TypeError]
    of [toString] called on [null]. *)
Inductive matching :=
  | Matching (c : Card)
  | NoCardWithLabel
  | ToStringOfNull.

(** [PyramidSolitaireVisualView.getMatchingCard] *)
Fixpoint getMatchingCard (label : string) (cards : list slot) : matching :=
  match cards with
  | [] => NoCardWithLabel
  | None :: _ => ToStringOfNull
  | Some c :: cards =>
      if String.eqb (toString c) label then Matching c else getMatchingCard label cards
  end.

(** ** The forEach loops that decide nothing *)

Lemma isGameWon_always (this : Model) : isGameWon this = true.
Proof. reflexivity. Qed.

Lemma isGameOver_started (this : Model) :
  gamestate this = STARTED -> isGameOver this = Ok true.
Proof. intros Hs. unfold isGameOver, checkStarted. rewrite Hs. reflexivity. Qed.

Lemma getScore_started (this : Model) :
  gamestate this = STARTED -> getScore this = Ok 0%Z.
Proof. intros Hs. unfold getScore, checkStarted. rewrite Hs. reflexivity. Qed.

(** C1 (the code departs from the claim): in the game of three rows and
    three draw cards dealt from the unshuffled standard deck the pyramid is
    not cleared, two candidate cards (the 6 of the last row and the 7 of the
    draw pile) sum to 13, and the stock is non-empty with three draw slots;
    [isGameOver] returns [true] all the same, because [isGameWon] always
    returns [true]. *)
Theorem isGameOver_smallGame :
  gamestate smallGame = STARTED /\
  pyramidCleared smallGame = false /\
  at_ (rowAt smallGame 2) 2 = Some (mkCard HEART 6) /\
  isCovered 2 2 smallGame = Ok false /\
  at_ (draws smallGame) 0 = Some (mkCard HEART 7) /\
  (0 < len (draws smallGame))%Z /\ (0 < len (stock smallGame))%Z /\
  isGameOver smallGame = Ok true.
Proof. vm_compute. repeat split. Qed.

(** C2 (the code departs from the claim): in the same game the pyramid
    holds the ranks 1 to 6, whose sum is 21, and [getScore] returns 0,
    because [isGameWon] always returns [true]. *)
Theorem getScore_smallGame :
  gamestate smallGame = STARTED /\
  pyramidCleared smallGame = false /\
  pyramidRankSum smallGame = 21%Z /\
  getScore smallGame = Ok 0%Z.
Proof. vm_compute. repeat split. Qed.

(** ** Running the engine monad *)

Ltac unfold_engine :=
  unfold bindM, query, get, throwWhen, assign, throwIf, bindO in *.

Ltac split_outcome :=
  repeat match goal with
  | H : context [match ?c with _ => _ end] |- _ =>
      let E := fresh "E" in destruct c eqn:E; simpl in H; try discriminate H
  | |- context [match ?c with _ => _ end] =>
      let E := fresh "E" in destruct c eqn:E; simpl
  end.

Lemma discardDraw_cases (drawIndex : Z) (this : Model) :
  discardDraw drawIndex this =
    match gamestate this with
    | NOT_STARTED => (Throw NotStarted, this)
    | STARTED =>
        if ((drawIndex <? 0) || (drawIndex >=? len (draws this)))%Z then (Throw OutOfBounds, this)
        else if bool_decide (at_ (draws this) drawIndex = None) then (Throw EmptySlot, this)
        else if (len (stock this) >? 0)%Z then (Ok tt, replenish drawIndex this)
        else (Ok tt, emptyDraw drawIndex this)
    end.
Proof.
  unfold discardDraw, checkStarted. unfold_engine.
  destruct (gamestate this); [reflexivity|].
  destruct (_ || _); [reflexivity|].
  destruct (bool_decide _); [reflexivity|].
  destruct (_ >? _)%Z; reflexivity.
Qed.

Lemma remove_throw (row card : Z) (this this' : Model) (e : error) :
  remove row card this = (Throw e, this') -> this' = this.
Proof.
  unfold remove. unfold_engine. intros H.
  split_outcome; congruence.
Qed.

Lemma removeTwo_throw (row1 card1 row2 card2 : Z) (this this' : Model) (e : error) :
  removeTwo row1 card1 row2 card2 this = (Throw e, this') -> this' = this.
Proof.
  unfold removeTwo. unfold_engine. intros H.
  split_outcome; congruence.
Qed.

Lemma discardDraw_throw (drawIndex : Z) (this this' : Model) (e : error) :
  discardDraw drawIndex this = (Throw e, this') -> this' = this.
Proof.
  rewrite discardDraw_cases. intros H.
  split_outcome; congruence.
Qed.

Lemma removeUsingDraw_throw (drawIndex row card : Z) (this this' : Model) (e : error) :
  removeUsingDraw drawIndex row card this = (Throw e, this') -> this' = this.
Proof.
  unfold removeUsingDraw. unfold_engine. intros H.
  destruct (checkStarted this) eqn:Es; simpl in H; [|congruence].
  destruct (negb (isRowInBounds row this)); simpl in H; [congruence|].
  destruct (negb (isCardInBounds row card this)); simpl in H; [congruence|].
  destruct ((drawIndex >=? len (draws this)) || (drawIndex <? 0))%Z eqn:Eb; simpl in H; [congruence|].
  destruct (getCardAt row card this) as [c|]; simpl in H; [|congruence].
  destruct (bool_decide (c = None)); simpl in H; [congruence|].
  destruct (bool_decide (at_ (draws this) drawIndex = None)) eqn:Ed; simpl in H; [congruence|].
  destruct (valueOf c); simpl in H; [|congruence].
  destruct (valueOf (at_ (draws this) drawIndex)); simpl in H; [|congruence].
  destruct (negb _); simpl in H; [congruence|].
  destruct (isCovered row card this) as [[]|]; simpl in H; try congruence.
  rewrite discardDraw_cases in H. simpl in H.
  unfold checkStarted in Es. destruct (gamestate this); [discriminate|].
  rewrite orb_comm, Eb, Ed in H.
  destruct (_ >? _)%Z; discriminate.
Qed.

Lemma startGame_throw rng deck doShuffle numRows numDraw (this this' : Model) (e : error) caller :
  startGame rng deck doShuffle numRows numDraw this = (Throw e, this', caller) ->
  this' = this /\ caller = deck.
Proof.
  unfold startGame. intros H.
  destruct deck as [cards|]; [|by inversion H].
  destruct (startGuards cards numRows numDraw); [|by inversion H].
  destruct (dealCards _ _ _ _), (fold_left _ _ _). discriminate.
Qed.

(** C9: an operation that fails leaves the engine as it was: pyramid, draw
    pile, stock and lifecycle flag after the call are those before it. This
    holds for [startGame], [remove], [removeTwo], [removeUsingDraw] and
    [discardDraw] (and for the queries, which never assign). *)
Theorem failed_operation_changes_nothing (op : operation) (this this' : Model) (e : error) :
  exec op this = (Throw e, this') -> this' = this.
Proof.
  destruct op; simpl; unfold void; intros H.
  - destruct (startGame _ _ _ _ _ _) as [[[] s] caller] eqn:E; simpl in H; [discriminate|].
    apply startGame_throw in E. destruct E. congruence.
  - destruct (remove _ _ _) as [[] s] eqn:E; simpl in H; [discriminate|].
    apply remove_throw in E. congruence.
  - destruct (removeTwo _ _ _ _ _) as [[] s] eqn:E; simpl in H; [discriminate|].
    apply removeTwo_throw in E. congruence.
  - destruct (removeUsingDraw _ _ _ _) as [[] s] eqn:E; simpl in H; [discriminate|].
    apply removeUsingDraw_throw in E. congruence.
  - destruct (discardDraw _ _) as [[] s] eqn:E; simpl in H; [discriminate|].
    apply discardDraw_throw in E. congruence.
  - congruence.
  - congruence.
  - congruence.
  - congruence.
  - congruence.
  - congruence.
  - congruence.
Qed.

Lemma failed_operation_changes_nothing_witness :
  fst (exec (OpRemoveTwo 2 0 2 1) smallGame) = Throw InvalidMove /\
  snd (exec (OpRemoveTwo 2 0 2 1) smallGame) = smallGame.
Proof.
  split; [reflexivity|].
  apply (failed_operation_changes_nothing (OpRemoveTwo 2 0 2 1) smallGame _ InvalidMove).
  reflexivity.
Defined.

(** ** Array reads and bounds *)

Lemma at_lookup (arr : list slot) (i : Z) (c : Card) :
  at_ arr i = Some c <-> (0 <= i)%Z /\ arr !! Z.to_nat i = Some (Some c).
Proof.
  unfold at_. destruct (Z.ltb_spec i 0).
  - split; [discriminate | lia].
  - destruct (arr !! Z.to_nat i) as [[x|]|]; simpl; split; intros H1;
      try discriminate; try (destruct H1; discriminate).
    + by inversion H1.
    + destruct H1 as [_ H1]. by inversion H1.
Qed.

Lemma at_insert_eq (arr : list slot) (i : Z) (x : slot) :
  (0 <= i < len arr)%Z -> at_ (<[Z.to_nat i := x]> arr) i = x.
Proof.
  unfold at_, len. intros H. destruct (Z.ltb_spec i 0); [lia|].
  rewrite list_lookup_insert_eq; [reflexivity | lia].
Qed.

Lemma at_insert_ne (arr : list slot) (i j : Z) (x : slot) :
  (0 <= i)%Z -> (0 <= j)%Z -> i <> j -> at_ (<[Z.to_nat i := x]> arr) j = at_ arr j.
Proof.
  unfold at_. intros Hi Hj Hne. destruct (Z.ltb_spec j 0); [lia|].
  rewrite list_lookup_insert_ne; [reflexivity | lia].
Qed.

Lemma isRowInBounds_true (row : Z) (this : Model) :
  isRowInBounds row this = true <-> (0 <= row < len (pyramid this))%Z.
Proof. unfold isRowInBounds. rewrite andb_true_iff. lia. Qed.

Lemma isCardInBounds_true (row card : Z) (this : Model) :
  isCardInBounds row card this = true <->
  (0 <= row < len (pyramid this))%Z /\ (0 <= card < len (rowAt this row))%Z.
Proof.
  unfold isCardInBounds. rewrite !andb_true_iff, isRowInBounds_true. lia.
Qed.

Lemma getCardAt_in_bounds (row card : Z) (this : Model) :
  gamestate this = STARTED ->
  (0 <= row < len (pyramid this))%Z -> (0 <= card < len (rowAt this row))%Z ->
  getCardAt row card this = Ok (at_ (rowAt this row) card).
Proof.
  intros Hs Hr Hc. unfold getCardAt, checkStarted. rewrite Hs. simpl.
  assert (isRowInBounds row this = true) as -> by by apply isRowInBounds_true.
  assert (isCardInBounds row card this = true) as -> by by apply isCardInBounds_true.
  reflexivity.
Qed.

Lemma getCardAt_Ok (row card : Z) (this : Model) (c : slot) :
  getCardAt row card this = Ok c ->
  gamestate this = STARTED /\ (0 <= row < len (pyramid this))%Z /\
  (0 <= card < len (rowAt this row))%Z /\ c = at_ (rowAt this row) card.
Proof.
  unfold getCardAt, checkStarted. unfold throwIf.
  destruct (gamestate this); simpl; [discriminate|].
  destruct (isRowInBounds row this) eqn:Er; simpl; [|discriminate].
  destruct (isCardInBounds row card this) eqn:Ec; simpl; [|discriminate].
  apply isCardInBounds_true in Ec. intros [= <-]. tauto.
Qed.

(** ** Lifecycle *)

Section Preserves.
Context {T : Type} (obs : Model -> T).

Lemma preserves_bind {A B} (c : M A) (k : A -> M B) :
  preserves obs c -> (forall a, preserves obs (k a)) -> preserves obs (bindM c k).
Proof.
  intros Hc Hk this. unfold bindM. specialize (Hc this).
  destruct (c this) as [[a|e] this1]; simpl in *; [|exact Hc].
  by rewrite Hk.
Qed.

Lemma preserves_query {A} (q : Model -> outcome A) : preserves obs (query q).
Proof. by intros this. Qed.

Lemma preserves_get : preserves obs get.
Proof. by intros this. Qed.

Lemma preserves_throwWhen (cond : bool) (e : error) : preserves obs (throwWhen cond e).
Proof. by intros this. Qed.

Lemma preserves_assign (f : Model -> Model) :
  (forall this, obs (f this) = obs this) -> preserves obs (assign f).
Proof. intros Hf this. apply Hf. Qed.
End Preserves.

(** [preserving tac] walks through the statements of a method; [tac] shows
    that each assignment keeps the observation. *)
Ltac preserving tac :=
  repeat first
    [ apply preserves_query | apply preserves_get | apply preserves_throwWhen
    | apply preserves_assign; intros ?; tac
    | apply preserves_bind; [|intros ?]
    | match goal with |- preserves _ (if ?b then _ else _) => destruct b end ].

Lemma remove_gamestate (row card : Z) : preserves gamestate (remove row card).
Proof. unfold remove. preserving ltac:(reflexivity). Qed.

Lemma removeTwo_gamestate (row1 card1 row2 card2 : Z) :
  preserves gamestate (removeTwo row1 card1 row2 card2).
Proof. unfold removeTwo. preserving ltac:(reflexivity). Qed.

Lemma discardDraw_gamestate (drawIndex : Z) : preserves gamestate (discardDraw drawIndex).
Proof. unfold discardDraw. preserving ltac:(reflexivity). Qed.

Lemma removeUsingDraw_gamestate (drawIndex row card : Z) :
  preserves gamestate (removeUsingDraw drawIndex row card).
Proof. unfold removeUsingDraw. preserving ltac:(reflexivity). Qed.

Lemma startGame_gamestate rng deck doShuffle numRows numDraw (this : Model) :
  gamestate this = STARTED ->
  gamestate (snd (fst (startGame rng deck doShuffle numRows numDraw this))) = STARTED.
Proof.
  intros Hs. unfold startGame.
  destruct deck as [cards|]; [|exact Hs].
  destruct (startGuards cards numRows numDraw); [|exact Hs].
  destruct (dealCards _ _ _ _), (fold_left _ _ _). reflexivity.
Qed.

(** C5 (as amended): while the engine is NOT-STARTED, [remove],
    [removeTwo], [removeUsingDraw], [discardDraw], [getScore], [isGameOver],
    [getCardAt], [getDrawCards] and [getRowWidth] fail with NotStarted and
    leave the engine as it is, whereas [getNumRows] and [getNumDraw] do
    not fail: they return -1. Once the engine is STARTED it stays STARTED
    under every operation, [startGame] included, whether the operation
    succeeds or fails. *)
Theorem lifecycle_guard (op : operation) (this : Model) :
  (gamestate this = NOT_STARTED ->
     match op with
     | OpStartGame _ _ _ _ _ => True
     | OpGetNumRows | OpGetNumDraw => exec op this = (Ok (RNumber (-1)), this)
     | _ => exec op this = (Throw NotStarted, this)
     end) /\
  (gamestate this = STARTED -> gamestate (snd (exec op this)) = STARTED).
Proof.
  split; intros Hs.
  - destruct op; simpl; trivial; unfold void;
      unfold remove, removeTwo, removeUsingDraw, discardDraw, removeTwoChecks, getScore,
        isGameOver, getCardAt, getDrawCards, getRowWidth, getNumRows, getNumDraw,
        checkStarted;
      unfold_engine; rewrite Hs; reflexivity.
  - destruct op; simpl; trivial.
    + by apply startGame_gamestate.
    + by rewrite remove_gamestate.
    + by rewrite removeTwo_gamestate.
    + by rewrite removeUsingDraw_gamestate.
    + by rewrite discardDraw_gamestate.
Qed.

Lemma lifecycle_guard_witness :
  exec (OpRemove 0 0) constructor = (Throw NotStarted, constructor) /\
  exec OpGetNumRows constructor = (Ok (RNumber (-1)), constructor) /\
  gamestate (snd (exec (OpDiscardDraw 0) smallGame)) = STARTED.
Proof.
  split; [|split].
  - exact (proj1 (lifecycle_guard (OpRemove 0 0) constructor) eq_refl).
  - exact (proj1 (lifecycle_guard OpGetNumRows constructor) eq_refl).
  - exact (proj2 (lifecycle_guard (OpDiscardDraw 0) smallGame) eq_refl).
Defined.

(** C5 (as stated) fails: on the engine that has not been started,
    [getNumRows] and [getNumDraw] return -1 instead of failing with
    NotStarted. *)
Lemma getNumRows_not_started_returns :
  gamestate constructor = NOT_STARTED /\
  exec OpGetNumRows constructor <> (Throw NotStarted, constructor) /\
  exec OpGetNumDraw constructor <> (Throw NotStarted, constructor) /\
  getNumRows constructor = (-1)%Z /\ getNumDraw constructor = (-1)%Z.
Proof. repeat split; discriminate. Qed.

(** ** Pair removal on one position *)

Lemma removeTwoChecks_same (row col : Z) (this : Model) :
  removeTwoChecks row col row col this <> Ok tt.
Proof.
  unfold removeTwoChecks. unfold_engine. intros H.
  destruct (checkStarted this); [|discriminate].
  destruct (_ || _); [discriminate|].
  destruct (_ || _); [discriminate|].
  destruct (getCardAt row col this) as [c|]; [|discriminate].
  destruct (bool_decide (c = None)); [discriminate|].
  destruct c as [c|]; simpl in H; [|discriminate].
  unfold removalValue in H.
  destruct (Z.eqb_spec (getValue c + getValue c) 13); [lia | discriminate].
Qed.

Lemma removeTwo_same_never_Ok (row col : Z) (this this' : Model) :
  removeTwo row col row col this <> (Ok tt, this').
Proof.
  intros H. unfold removeTwo in H. unfold_engine.
  pose proof (removeTwoChecks_same row col this) as Hne.
  destruct (removeTwoChecks row col row col this) as [[]|]; [by apply Hne | discriminate].
Qed.

(** C10: in a started game, [removeTwo] given one in-bounds position twice,
    whose slot holds a card, fails with InvalidMove and leaves the engine as
    it was, since twice an integer rank is never 13; and in no state at all
    does [removeTwo] on a position given twice return normally, so it never
    clears a single slot. *)
Theorem removeTwo_same_position (row col : Z) (this : Model) :
  (forall c : Card,
     gamestate this = STARTED ->
     (0 <= row < len (pyramid this))%Z -> (0 <= col < len (rowAt this row))%Z ->
     at_ (rowAt this row) col = Some c ->
     removeTwo row col row col this = (Throw InvalidMove, this)) /\
  (forall this', removeTwo row col row col this <> (Ok tt, this')).
Proof.
  split.
  - intros c Hs Hr Hc Hat.
    unfold removeTwo, removeTwoChecks. unfold_engine.
    rewrite (getCardAt_in_bounds row col this Hs Hr Hc), Hat.
    unfold checkStarted. rewrite Hs.
    assert (isRowInBounds row this = true) as -> by by apply isRowInBounds_true.
    assert (isCardInBounds row col this = true) as -> by by apply isCardInBounds_true.
    simpl. unfold removalValue.
    destruct (Z.eqb_spec (getValue c + getValue c) 13); [lia | reflexivity].
  - intros this'. apply removeTwo_same_never_Ok.
Qed.

Lemma removeTwo_same_position_witness :
  removeTwo 2 1 2 1 smallGame = (Throw InvalidMove, smallGame).
Proof.
  apply (proj1 (removeTwo_same_position 2 1 smallGame) (mkCard HEART 5));
    [reflexivity | by vm_compute | by vm_compute | reflexivity].
Defined.

(** ** Discarding a draw card *)

(** C7: in a started game, [discardDraw] on an in-bounds draw slot that
    holds a card returns normally; afterwards the draw pile has the length
    it had, and, if the stock was non-empty, the slot holds the former front
    card of the stock and the stock is its former tail (one shorter), while
    if the stock was empty the slot is empty and the stock still empty. The
    other draw slots and the pyramid are as before. *)
Theorem discardDraw_effect (drawIndex : Z) (this : Model) (c : Card) :
  gamestate this = STARTED ->
  (0 <= drawIndex < len (draws this))%Z ->
  at_ (draws this) drawIndex = Some c ->
  exists this',
    discardDraw drawIndex this = (Ok tt, this') /\
    length (draws this') = length (draws this) /\
    match stock this with
    | front :: rest =>
        at_ (draws this') drawIndex = front /\ stock this' = rest /\
        length (stock this) = S (length (stock this'))
    | [] => at_ (draws this') drawIndex = None /\ stock this' = []
    end /\
    (forall j, (0 <= j)%Z -> j <> drawIndex -> at_ (draws this') j = at_ (draws this) j) /\
    pyramid this' = pyramid this /\ gamestate this' = STARTED.
Proof.
  intros Hs Hb Hat. rewrite discardDraw_cases, Hs, Hat.
  assert (((drawIndex <? 0) || (drawIndex >=? len (draws this)))%Z = false) as ->.
  { apply orb_false_iff. lia. }
  simpl. destruct (stock this) as [|front rest] eqn:Est; simpl.
  - eexists; split; [reflexivity|]. unfold emptyDraw; simpl.
    rewrite length_insert, at_insert_eq by done.
    split; [done|]. split; [done|]. split; [|done].
    intros j Hj Hne. apply at_insert_ne; lia.
  - eexists; split; [reflexivity|]. unfold replenish; simpl.
    rewrite Est, length_insert, at_insert_eq by done.
    split; [done|]. split; [done|]. split; [|done].
    intros j Hj Hne. apply at_insert_ne; lia.
Qed.

Lemma discardDraw_effect_witness :
  exists this',
    discardDraw 1 smallGame = (Ok tt, this') /\
    length (draws this') = length (draws smallGame) /\
    gamestate this' = STARTED.
Proof.
  destruct (discardDraw_effect 1 smallGame (mkCard HEART 8))
    as (this' & H1 & H2 & _ & _ & _ & H3);
    [reflexivity | by vm_compute | reflexivity |].
  exists this'. split; [exact H1|]. split; [exact H2 | exact H3].
Defined.

(** ** Single removal *)

Lemma rowsFrom_lookup (k r : nat) (rows : list (list slot)) (row : list slot) :
  rowsFrom k rows = true -> rows !! r = Some row -> length row = S (k + r).
Proof.
  revert k r. induction rows as [|row0 rows IH]; intros k r Hrows Hrow; [done|].
  simpl in Hrows. apply andb_true_iff in Hrows as [H0 Hrows].
  destruct r as [|r]; simpl in Hrow.
  - injection Hrow as <-. apply Nat.eqb_eq in H0. lia.
  - rewrite (IH (S k) r Hrows Hrow). lia.
Qed.

Lemma pyramidShape_lookup (this : Model) (r : nat) (row : list slot) :
  pyramidShape this = true -> pyramid this !! r = Some row -> length row = S r.
Proof. intros Hshape Hrow. apply (rowsFrom_lookup 0 r _ _ Hshape Hrow). Qed.

Lemma rowAt_shape (this : Model) (row : Z) :
  pyramidShape this = true -> (0 <= row < len (pyramid this))%Z ->
  len (rowAt this row) = (row + 1)%Z.
Proof.
  intros Hshape Hr. unfold rowAt, len in *.
  destruct (lookup_lt_is_Some_2 (pyramid this) (Z.to_nat row)) as [r Hrow]; [lia|].
  rewrite Hrow. simpl. rewrite (pyramidShape_lookup _ _ _ Hshape Hrow). lia.
Qed.

Lemma isCovered_shape (row col : Z) (this : Model) :
  gamestate this = STARTED -> pyramidShape this = true ->
  (0 <= row < len (pyramid this))%Z -> (0 <= col <= row)%Z ->
  isCovered row col this = Ok (negb (uncovered this row col)).
Proof.
  intros Hs Hshape Hr Hc. unfold isCovered, uncovered. unfold throwIf.
  pose proof (rowAt_shape this row Hshape Hr) as Hlen.
  assert (((row >=? len (pyramid this)) || (row <? 0))%Z = false) as ->
    by (apply orb_false_iff; lia).
  assert (((col >=? len (rowAt this row)) || (col <? 0))%Z = false) as ->
    by (apply orb_false_iff; lia).
  simpl. destruct (Z.eqb_spec row (len (pyramid this) - 1)); [reflexivity|].
  assert (0 <= row + 1 < len (pyramid this))%Z as Hr1 by lia.
  pose proof (rowAt_shape this (row + 1) Hshape Hr1) as Hlen1.
  rewrite !getCardAt_in_bounds by (done || lia). simpl.
  destruct (at_ (rowAt this (row + 1)) col) as [below|]; simpl; [reflexivity|].
  destruct (at_ (rowAt this (row + 1)) (col + 1)); reflexivity.
Qed.

Lemma remove_cases (row col : Z) (this : Model) (c : Card) :
  gamestate this = STARTED -> pyramidShape this = true ->
  (0 <= row < len (pyramid this))%Z -> (0 <= col <= row)%Z ->
  at_ (rowAt this row) col = Some c ->
  remove row col this =
    if negb (value c =? 13)%Z then (Throw InvalidMove, this)
    else if uncovered this row col then (Ok tt, clearSlot row col this)
    else (Throw Covered, this).
Proof.
  intros Hs Hshape Hr Hc Hat.
  pose proof (rowAt_shape this row Hshape Hr) as Hlen.
  unfold remove. unfold_engine.
  rewrite (isCovered_shape row col this Hs Hshape Hr Hc).
  rewrite (getCardAt_in_bounds row col this Hs Hr) by lia.
  rewrite Hat. unfold checkStarted. rewrite Hs.
  assert (isRowInBounds row this = true) as -> by by apply isRowInBounds_true.
  assert (isCardInBounds row col this = true) as ->
    by (apply isCardInBounds_true; lia).
  simpl. unfold getValue, removalValue.
  destruct (value c =? 13)%Z; simpl; [|reflexivity].
  destruct (uncovered this row col); reflexivity.
Qed.

Lemma clearSlot_rowAt_eq (row col : Z) (this : Model) :
  rowAt (clearSlot row col this) row = <[Z.to_nat col := None]> (rowAt this row).
Proof.
  unfold rowAt, clearSlot; simpl. rewrite list_lookup_alter_eq.
  by destruct (pyramid this !! Z.to_nat row).
Qed.

Lemma clearSlot_rowAt_ne (row col row' : Z) (this : Model) :
  (0 <= row)%Z -> (0 <= row')%Z -> row' <> row ->
  rowAt (clearSlot row col this) row' = rowAt this row'.
Proof.
  intros Hr Hr' Hne. unfold rowAt, clearSlot; simpl.
  rewrite list_lookup_alter_ne; [reflexivity | lia].
Qed.

Lemma clearSlot_len_rowAt (row col row' : Z) (this : Model) :
  len (rowAt (clearSlot row col this) row') = len (rowAt this row').
Proof.
  unfold rowAt, clearSlot, len; simpl.
  destruct (decide (Z.to_nat row = Z.to_nat row')) as [<-|Hne].
  - rewrite list_lookup_alter_eq.
    destruct (pyramid this !! Z.to_nat row); simpl; [|reflexivity].
    by rewrite length_insert.
  - by rewrite list_lookup_alter_ne.
Qed.

Lemma clearSlot_len_pyramid (row col : Z) (this : Model) :
  len (pyramid (clearSlot row col this)) = len (pyramid this).
Proof. unfold clearSlot, len; simpl. by rewrite length_alter. Qed.

Lemma clearSlot_at (row col row' col' : Z) (this : Model) :
  (0 <= row)%Z -> (0 <= col < len (rowAt this row))%Z -> (0 <= row')%Z -> (0 <= col')%Z ->
  at_ (rowAt (clearSlot row col this) row') col' =
    if bool_decide (row' = row /\ col' = col) then None else at_ (rowAt this row') col'.
Proof.
  intros Hr Hc Hr' Hc'. case_bool_decide as Hd.
  - destruct Hd as [-> ->]. rewrite clearSlot_rowAt_eq. by apply at_insert_eq.
  - destruct (decide (row' = row)) as [->|Hne].
    + rewrite clearSlot_rowAt_eq. apply at_insert_ne; [lia | lia |].
      intros Heq. apply Hd. by split.
    + by rewrite clearSlot_rowAt_ne.
Qed.

(** ** Deck validation *)

Lemma equals_true (c : Card) (obj : slot) : equals c obj = true <-> obj = Some c.
Proof.
  unfold equals. destruct obj as [[s v]|]; [|done]. destruct c as [s' v']; simpl.
  rewrite andb_true_iff, Z.eqb_eq, bool_decide_eq_true. split.
  - intros [-> ->]. reflexivity.
  - intros [= -> ->]. done.
Qed.

Lemma at_of_nat (arr : list slot) (i : nat) : at_ arr (Z.of_nat i) = mjoin (arr !! i).
Proof.
  unfold at_. destruct (Z.ltb_spec (Z.of_nat i) 0); [lia|]. by rewrite Nat2Z.id.
Qed.

Lemma at_cards (cs : list Card) (i : nat) : at_ (map Some cs) (Z.of_nat i) = cs !! i.
Proof.
  rewrite at_of_nat. change (map Some cs) with (Some <$> cs).
  rewrite list_lookup_fmap. by destruct (cs !! i).
Qed.

Lemma range_len {A} (arr : list A) : range (len arr) = seq 0 (length arr).
Proof. unfold range, len. by rewrite Nat2Z.id. Qed.

(** On a deck without empty slots the inner loop does not throw, and finds
    a duplicate exactly when one of the other indices holds the same card. *)
Lemma findDuplicate_cards (cs : list Card) (i : nat) (c : Card) (js : list nat) :
  cs !! i = Some c ->
  exists b, findDuplicate (map Some cs) i js = Ok b /\
    (b = true <-> exists j, j ∈ js /\ j <> i /\ cs !! j = Some c).
Proof.
  intros Hi. induction js as [|j js (b & IH & Hb)]; simpl.
  - exists false. split; [done|]. split; [done|]. intros (j & Hj & _). by apply elem_of_nil in Hj.
  - destruct (Nat.eqb_spec i j) as [<-|Hne]; simpl.
    + exists b. split; [done|]. rewrite Hb. split.
      * intros (j & Hj & Hji & Hc). exists j. split; [by right | done].
      * intros (j & Hj & Hji & Hc). exists j. apply elem_of_cons in Hj as [->|Hj]; done.
    + rewrite !at_cards, Hi. destruct (equals c (cs !! j)) eqn:Heq.
      * exists true. split; [done|]. split; [|done]. intros _.
        apply equals_true in Heq. exists j. split; [by left|]. split; [lia | done].
      * exists b. split; [done|]. rewrite Hb. split.
        -- intros (k & Hk & Hki & Hc). exists k. split; [by right | done].
        -- intros (k & Hk & Hki & Hc). exists k.
           apply elem_of_cons in Hk as [->|Hk]; [|done].
           apply equals_true in Hc. congruence.
Qed.

Lemma isValidDeck_from_cards (cs : list Card) (indexes : list nat) :
  Forall (fun i => i < length cs) indexes ->
  exists b, isValidDeck_from (map Some cs) indexes = Ok b /\
    (b = true <->
       length cs = 52 /\
       forall i j c, i ∈ indexes -> cs !! i = Some c -> cs !! j = Some c -> i = j).
Proof.
  induction 1 as [|i indexes Hi Hrest (b & IH & Hb)]; simpl.
  - exists (len (map Some cs) =? len getDeck)%Z. split; [done|].
    rewrite Z.eqb_eq. unfold len. rewrite length_map.
    change (length getDeck) with 52. split.
    + intros Hlen. split; [lia|]. intros i j c Hi. by apply elem_of_nil in Hi.
    + intros [Hlen _]. lia.
  - destruct (lookup_lt_is_Some_2 cs i Hi) as [c Hc].
    destruct (findDuplicate_cards cs i c (range (len (map Some cs))) Hc) as (d & -> & Hd).
    simpl. rewrite range_len, length_map in Hd.
    destruct d.
    + exists false. split; [done|]. split; [done|]. intros [_ Hinj].
      destruct (proj1 Hd eq_refl) as (j & _ & Hji & Hj).
      exfalso. apply Hji. symmetry. apply (Hinj i j c); [by left | done | done].
    + rewrite at_cards, Hc. rewrite bool_decide_eq_false_2 by done.
      exists b. split; [done|]. rewrite Hb. split.
      * intros [Hlen Hinj]. split; [done|]. intros k j c' Hk Hkc Hjc.
        apply elem_of_cons in Hk as [->|Hk]; [|by eapply Hinj].
        destruct (decide (i = j)) as [|Hne]; [done|].
        assert (false = true) as Habs; [|discriminate].
        apply Hd. exists j. split; [|split; [lia|congruence]].
        apply elem_of_seq. apply lookup_lt_Some in Hjc. lia.
      * intros [Hlen Hinj]. split; [done|]. intros k j c' Hk. apply Hinj. by right.
Qed.

(** [isValidDeck] on a deck without empty slots: no duplicate and the size
    of [getDeck]. *)
Lemma isValidDeck_cards (cs : list Card) :
  exists b, isValidDeck (map Some cs) = Ok b /\ (b = true <-> length cs = 52 /\ NoDup cs).
Proof.
  unfold isValidDeck. rewrite range_len, length_map.
  destruct (isValidDeck_from_cards cs (seq 0 (length cs))) as (b & Hb & Hiff).
  { apply Forall_forall. intros i Hi. apply elem_of_seq in Hi. lia. }
  exists b. split; [done|]. rewrite Hiff, NoDup_alt. split.
  - intros [Hlen Hinj]. split; [done|]. intros i j c Hi Hj. by eapply Hinj; [|done..];
      apply elem_of_seq; apply lookup_lt_Some in Hi; lia.
  - intros [Hlen Hinj]. split; [done|]. intros i j c _. apply Hinj.
Qed.

Lemma isValidDeck_from_filled (deck : list slot) (indexes : list nat) :
  isValidDeck_from deck indexes = Ok true ->
  Forall (fun i => at_ deck (Z.of_nat i) <> None) indexes.
Proof.
  induction indexes as [|i indexes IH]; simpl; [constructor|].
  destruct (findDuplicate deck i (range (len deck))) as [[]|]; simpl; try discriminate.
  case_bool_decide as Hi; [discriminate|]. intros H. constructor; [done | by apply IH].
Qed.

Lemma filled_cards (deck : list slot) :
  Forall (fun c : slot => c <> None) deck -> exists cs : list Card, deck = map Some cs.
Proof.
  induction 1 as [|[c|] deck Hc _ (cs & ->)]; [by exists [] | by exists (c :: cs) | done].
Qed.

(** A deck that [isValidDeck] accepts is an array of 52 distinct cards,
    none of its slots empty. *)
Lemma isValidDeck_true (deck : list slot) :
  isValidDeck deck = Ok true ->
  exists cs : list Card, deck = map Some cs /\ length cs = 52 /\ NoDup cs.
Proof.
  intros Hvalid.
  destruct (filled_cards deck) as (cs & ->).
  { apply Forall_lookup. intros i c Hi ->.
    apply isValidDeck_from_filled in Hvalid. rewrite range_len in Hvalid.
    rewrite Forall_forall in Hvalid. apply (Hvalid i).
    - apply elem_of_seq. apply lookup_lt_Some in Hi. lia.
    - rewrite at_of_nat, Hi. reflexivity. }
  exists cs. split; [done|].
  destruct (isValidDeck_cards cs) as (b & Hb & Hiff).
  apply Hiff. congruence.
Qed.

(** A deck with an empty slot is outside the statements below:
    [isValidDeck] calls [equals] on the empty slot before it reaches its
    test for [null], so that [startGame] ends in a [TypeError]. *)
Lemma isValidDeck_empty_slot :
  isValidDeck (None :: tail standardDeck) = Throw TypeError /\
  fst (fst (startGame (fun _ => O) (Some (None :: tail standardDeck)) false 3 3 constructor))
    = Throw TypeError.
Proof. split; by vm_compute. Qed.

Lemma getDeck_NoDup : NoDup getDeck.
Proof. apply (bool_decide_unpack _). by vm_compute. Qed.

Lemma getDeck_complete (c : Card) : (1 <= value c <= 13)%Z -> In c getDeck.
Proof.
  destruct c as [s v]. intros Hv. simpl in Hv.
  assert (v = 1 \/ v = 2 \/ v = 3 \/ v = 4 \/ v = 5 \/ v = 6 \/ v = 7 \/ v = 8 \/ v = 9 \/
          v = 10 \/ v = 11 \/ v = 12 \/ v = 13)%Z as Hcases by lia.
  destruct s; repeat (destruct Hcases as [->|Hcases]); try subst v;
    apply list_elem_of_In; apply (bool_decide_unpack _); by vm_compute.
Qed.

Lemma startGame_InvalidDeck rng (deck : list slot) doShuffle numRows numDraw (this : Model) :
  fst (fst (startGame rng (Some deck) doShuffle numRows numDraw this)) = Throw InvalidDeck <->
  isValidDeck deck = Ok false.
Proof.
  unfold startGame, startGuards. unfold throwIf.
  destruct (isValidDeck deck) as [[]|e] eqn:Ev; simpl.
  - repeat match goal with |- context [if ?b then _ else _] => destruct b; simpl end;
      try (split; discriminate).
    all: destruct (dealCards _ _ _ _), (fold_left _ _ _); simpl; split; discriminate.
  - done.
  - split; [|discriminate]. intros [= ->].
    unfold isValidDeck in *.
    assert (forall indexes, isValidDeck_from deck indexes <> Throw InvalidDeck) as Hno.
    { induction indexes as [|i indexes IH]; simpl; [discriminate|].
      assert (forall js, findDuplicate deck i js <> Throw InvalidDeck) as Hfd.
      { induction js as [|j js IHj]; simpl; [discriminate|].
        destruct (negb _); [|done]. destruct (at_ deck (Z.of_nat i)); [|discriminate].
        by destruct (equals _ _). }
      specialize (Hfd (range (len deck))).
      destruct (findDuplicate deck i (range (len deck))) as [[]|]; simpl;
        [discriminate | | congruence].
      by case_bool_decide. }
    exfalso. by eapply Hno, Ev.
Qed.

(** C4 (as amended): [startGame] on a deck without empty slots fails with
    InvalidDeck exactly when the deck has a size other than 52 or holds a
    duplicate (suit, rank) combination, and [startGame] on [null] fails with
    InvalidDeck; the ranks are not inspected. Every permutation of the
    standard deck passes the check. For a deck whose ranks all lie between
    1 and 13, having a size other than 52 or a duplicate is the same as not
    being a permutation of the standard deck, so that on such decks a
    missing combination is rejected too. *)
Theorem startGame_invalid_deck rng (cs : list Card) doShuffle numRows numDraw (this : Model) :
  (fst (fst (startGame rng (Some (map Some cs)) doShuffle numRows numDraw this))
     = Throw InvalidDeck <-> length cs <> 52 \/ ~ NoDup cs) /\
  fst (fst (startGame rng None doShuffle numRows numDraw this)) = Throw InvalidDeck /\
  (Permutation cs getDeck -> isValidDeck (map Some cs) = Ok true) /\
  ((forall c, In c cs -> (1 <= value c <= 13)%Z) ->
     (length cs <> 52 \/ ~ NoDup cs <-> ~ Permutation cs getDeck)).
Proof.
  destruct (isValidDeck_cards cs) as (b & Hb & Hiff).
  split; [|split; [done|split]].
  - rewrite startGame_InvalidDeck, Hb. split.
    + intros [= ->]. destruct (decide (length cs = 52)) as [Hlen|]; [|by left].
      right. intros Hnd. assert (false = true) as Habs by by apply Hiff.
      discriminate.
    + intros Hbad. destruct b; [|done]. destruct (proj1 Hiff eq_refl). tauto.
  - intros Hperm. rewrite Hb. f_equal. apply Hiff. split.
    + by rewrite (Permutation_length Hperm).
    + rewrite Hperm. apply getDeck_NoDup.
  - intros Hranks. split.
    + intros Hbad Hperm. destruct Hbad as [Hlen|Hdup].
      * apply Hlen. by rewrite (Permutation_length Hperm).
      * apply Hdup. rewrite Hperm. apply getDeck_NoDup.
    + intros Hnot. destruct (decide (length cs = 52)) as [Hlen|]; [|by left].
      right. intros Hnd. apply Hnot.
      apply NoDup_Permutation_bis; [by apply NoDup_ListNoDup | |].
      * rewrite Hlen. done.
      * intros c Hc. by apply getDeck_complete, Hranks.
Qed.

Lemma startGame_invalid_deck_witness :
  isValidDeck standardDeck = Ok true /\
  (length getDeck <> 52 \/ ~ NoDup getDeck <-> ~ Permutation getDeck getDeck).
Proof.
  pose proof (startGame_invalid_deck (fun _ => O) getDeck false 3 3 constructor)
    as (_ & _ & Hperm & Hranks).
  split.
  - apply Hperm. apply Permutation_refl.
  - apply Hranks. intros c Hc. apply list_elem_of_In in Hc.
    revert c Hc. apply Forall_forall. repeat constructor; by vm_compute.
Defined.

(** C4 (as stated) fails: the deck that holds a card of rank 14 in place of
    the king of hearts has 52 cards and no duplicate, misses the
    combination (heart, 13), and [startGame] accepts it. *)
Lemma startGame_accepts_kingless_deck :
  length kinglessDeck = 52 /\
  ~ In (mkCard HEART 13) kinglessDeck /\
  ~ Permutation kinglessDeck getDeck /\
  fst (fst (startGame (fun _ => O) (Some (map Some kinglessDeck)) false 3 3 constructor)) = Ok tt.
Proof.
  assert (~ In (mkCard HEART 13) kinglessDeck) as Hmiss.
  { rewrite <- list_elem_of_In. apply (proj1 (bool_decide_eq_false _)). by vm_compute. }
  split; [reflexivity|]. split; [done|]. split; [|reflexivity].
  intros Hperm. apply Hmiss. apply (Permutation_in _ (Permutation_sym Hperm)).
  apply getDeck_complete. simpl. lia.
Qed.

(** ** Dealing *)

Lemma forEach_push {A} (arr copy : list A) :
  forEach arr (fun value copy => copy ++ [value]) copy = copy ++ arr.
Proof.
  unfold forEach. revert copy. induction arr as [|x arr IH]; intros copy; simpl.
  - by rewrite app_nil_r.
  - by rewrite IH, <- app_assoc.
Qed.

Lemma startGuards_valid (deck : list slot) (numRows numDraw : Z) :
  isValidDeck deck = Ok true ->
  startGuards deck numRows numDraw =
    if negb (isEnoughCards 52 numRows numDraw) then Throw InsufficientCards
    else if ((numRows <=? 0) || (numDraw <? 0))%Z then Throw InvalidLayout
    else Ok tt.
Proof.
  intros Hvalid. unfold startGuards. rewrite Hvalid. simpl.
  destruct (isValidDeck_true deck Hvalid) as (cs & -> & Hlen & _).
  assert (len (map Some cs) = 52%Z) as -> by (unfold len; rewrite length_map; lia).
  unfold throwIf.
  destruct (negb _); simpl; [reflexivity|].
  destruct (Z.eqb_spec numRows 0) as [->|]; simpl.
  - by destruct (numDraw =? 0)%Z.
  - destruct (numRows <=? 0)%Z; simpl; [reflexivity|]. by destruct (numDraw <? 0)%Z.
Qed.

(** C8: [startGame] on a deck that [isValidDeck] accepts, without
    shuffling, with three rows and three draw cards, returns normally; the
    pyramid rows are the first card, the next two and the next three cards
    of the deck, the draw pile is the three cards after those, the stock is
    the remaining 43 cards in their order, and the caller's deck array is
    as it was. *)
Theorem startGame_three_rows_three_draws rng (deck : list slot) (this : Model) :
  isValidDeck deck = Ok true ->
  startGame rng (Some deck) false 3 3 this =
    (Ok tt,
     {| pyramid := [take 1 deck; take 2 (drop 1 deck); take 3 (drop 3 deck)];
        stock := drop 9 deck;
        draws := take 3 (drop 6 deck);
        gamestate := STARTED |},
     Some deck) /\
  map length [take 1 deck; take 2 (drop 1 deck); take 3 (drop 3 deck)] = [1; 2; 3] /\
  length (take 3 (drop 6 deck)) = 3 /\
  length (drop 9 deck) = 43 /\
  take 1 deck ++ take 2 (drop 1 deck) ++ take 3 (drop 3 deck) ++ take 3 (drop 6 deck)
    = take 9 deck.
Proof.
  intros Hvalid. unfold startGame.
  rewrite (startGuards_valid deck 3 3 Hvalid). simpl.
  rewrite forEach_push. simpl.
  destruct (isValidDeck_true deck Hvalid) as (cs & -> & Hlen & _).
  do 9 (destruct cs as [|? cs]; [simpl in Hlen; lia|]).
  simpl in Hlen. unfold at_. simpl. rewrite !drop_0, !take_0, length_map.
  split; [reflexivity|]. split; [reflexivity|]. split; [reflexivity|]. split; [lia|reflexivity].
Qed.

Lemma startGame_three_rows_three_draws_witness :
  pyramid smallGame =
    [[Some (mkCard HEART 1)];
     [Some (mkCard HEART 2); Some (mkCard HEART 3)];
     [Some (mkCard HEART 4); Some (mkCard HEART 5); Some (mkCard HEART 6)]] /\
  length (stock smallGame) = 43.
Proof.
  pose proof (startGame_three_rows_three_draws (fun _ => O) standardDeck constructor eq_refl)
    as (Hdeal & _ & _ & Hstock & _).
  unfold smallGame. rewrite Hdeal. split; [reflexivity | exact Hstock].
Defined.

(** ** Counting cards *)

Lemma countNonEmpty_app (l k : list slot) :
  countNonEmpty (l ++ k) = countNonEmpty l + countNonEmpty k.
Proof. induction l as [|[c|] l IH]; simpl; lia. Qed.

Lemma countNonEmpty_filled (l : list slot) : filled l -> countNonEmpty l = length l.
Proof. induction 1 as [|[c|] l Hc _ IH]; simpl; [done | lia | done]. Qed.

Lemma countNonEmpty_insert (l : list slot) (i : nat) (x y : slot) :
  l !! i = Some x ->
  countNonEmpty (<[i := y]> l) + countNonEmpty [x] = countNonEmpty l + countNonEmpty [y].
Proof.
  revert i. induction l as [|z l IH]; intros i Hi; [done|].
  destruct i as [|i]; simpl in Hi.
  - injection Hi as ->. destruct x, y; simpl; lia.
  - specialize (IH i Hi). change (<[S i := y]> (z :: l)) with (z :: <[i := y]> l).
    destruct z; simpl in *; lia.
Qed.

Lemma countNonEmpty_alter (rows : list (list slot)) (i : nat) (row : list slot)
    (f : list slot -> list slot) :
  rows !! i = Some row ->
  countNonEmpty (concat (alter f i rows)) + countNonEmpty row =
    countNonEmpty (concat rows) + countNonEmpty (f row).
Proof.
  revert i. induction rows as [|r rows IH]; intros i Hi; [done|].
  destruct i as [|i]; simpl in Hi.
  - injection Hi as ->. simpl. rewrite !countNonEmpty_app. lia.
  - specialize (IH i Hi). change (alter f (S i) (r :: rows)) with (r :: alter f i rows).
    simpl. rewrite !countNonEmpty_app. lia.
Qed.

Lemma countNonEmpty_tail (l : list slot) :
  countNonEmpty [at_ l 0] + countNonEmpty (tail l) = countNonEmpty l.
Proof. destruct l as [|[c|] l]; reflexivity. Qed.

Lemma filled_tail (l : list slot) : filled l -> filled (tail l).
Proof. destruct 1; [constructor | done]. Qed.

Lemma rowAt_lookup (this : Model) (row : Z) :
  (0 <= row < len (pyramid this))%Z ->
  pyramid this !! Z.to_nat row = Some (rowAt this row).
Proof.
  intros Hr. unfold rowAt.
  destruct (lookup_lt_is_Some_2 (pyramid this) (Z.to_nat row)) as [r ->]; [|done].
  unfold len in Hr. lia.
Qed.

(** Clearing a slot that holds a card takes one card off the pyramid. *)
Lemma clearSlot_count (row col : Z) (this : Model) (c : Card) :
  (0 <= row < len (pyramid this))%Z -> at_ (rowAt this row) col = Some c ->
  pyramidCount (clearSlot row col this) + 1 = pyramidCount this.
Proof.
  intros Hr Hat. apply at_lookup in Hat as [Hc Hat].
  unfold pyramidCount, clearSlot; simpl.
  pose proof (countNonEmpty_alter (pyramid this) (Z.to_nat row) (rowAt this row)
    (fun r => <[Z.to_nat col := None]> r) (rowAt_lookup this row Hr)) as Halter.
  pose proof (countNonEmpty_insert (rowAt this row) (Z.to_nat col) (Some c) None Hat) as Hins.
  simpl in *. lia.
Qed.

(** ** What a successful move did *)

Lemma remove_Ok (row col : Z) (this this' : Model) :
  remove row col this = (Ok tt, this') ->
  this' = clearSlot row col this /\ exists c : Card, getCardAt row col this = Ok (Some c).
Proof.
  unfold remove. unfold_engine. intros H.
  destruct (checkStarted this); [|discriminate].
  destruct (negb (isRowInBounds row this)); [discriminate|].
  destruct (negb (isCardInBounds row col this)); [discriminate|].
  destruct (getCardAt row col this) as [[c|]|]; simpl in H; try discriminate.
  destruct (negb _); [discriminate|].
  destruct (isCovered row col this) as [[]|]; try discriminate.
  injection H as <-. split; [done | by exists c].
Qed.

Lemma removeTwo_Ok (row1 col1 row2 col2 : Z) (this this' : Model) :
  removeTwo row1 col1 row2 col2 this = (Ok tt, this') ->
  this' = clearSlot row2 col2 (clearSlot row1 col1 this) /\
  (row1, col1) <> (row2, col2) /\
  exists c1 c2 : Card,
    getCardAt row1 col1 this = Ok (Some c1) /\ getCardAt row2 col2 this = Ok (Some c2).
Proof.
  intros H.
  assert ((row1, col1) <> (row2, col2)) as Hne.
  { intros [= <- <-]. by apply (removeTwo_same_never_Ok row1 col1 this this'). }
  revert H. unfold removeTwo, removeTwoChecks. unfold_engine. intros H.
  destruct (checkStarted this); [|discriminate].
  destruct (_ || _); [discriminate|].
  destruct (_ || _); [discriminate|].
  destruct (getCardAt row1 col1 this) as [[c1|]|]; simpl in H; try discriminate.
  destruct (getCardAt row2 col2 this) as [[c2|]|]; simpl in H; try discriminate.
  destruct (negb _); [discriminate|].
  destruct (isCovered row1 col1 this) as [[]|]; try discriminate.
  destruct (isCovered row2 col2 this) as [[]|]; try discriminate.
  injection H as <-. split; [done|]. split; [done|]. by exists c1, c2.
Qed.

Lemma discardDraw_Ok (drawIndex : Z) (this this' : Model) :
  discardDraw drawIndex this = (Ok tt, this') ->
  (0 <= drawIndex < len (draws this))%Z /\
  (exists c : Card, at_ (draws this) drawIndex = Some c) /\
  this' = (if (len (stock this) >? 0)%Z then replenish drawIndex this
           else emptyDraw drawIndex this).
Proof.
  rewrite discardDraw_cases. destruct (gamestate this); [discriminate|].
  destruct (_ || _) eqn:Eb; [discriminate|]. apply orb_false_iff in Eb.
  case_bool_decide as Hd; [discriminate|].
  destruct (at_ (draws this) drawIndex) as [c|] eqn:Hat; [|done].
  intros H. split; [lia|]. split; [by exists c|].
  destruct (_ >? _)%Z; by injection H.
Qed.

Lemma removeUsingDraw_Ok (drawIndex row col : Z) (this this' : Model) :
  removeUsingDraw drawIndex row col this = (Ok tt, this') ->
  (exists c : Card, getCardAt row col this = Ok (Some c)) /\
  discardDraw drawIndex (clearSlot row col this) = (Ok tt, this').
Proof.
  unfold removeUsingDraw. unfold_engine. intros H.
  destruct (checkStarted this); [|discriminate].
  destruct (negb (isRowInBounds row this)); [discriminate|].
  destruct (negb (isCardInBounds row col this)); [discriminate|].
  destruct (_ || _); [discriminate|].
  destruct (getCardAt row col this) as [[c|]|]; simpl in H; try discriminate.
  destruct (bool_decide _); [discriminate|].
  destruct (valueOf _); [|discriminate].
  destruct (negb _); [discriminate|].
  destruct (isCovered row col this) as [[]|]; try discriminate.
  split; [by exists c | done].
Qed.

(** A successful discard takes one card out of the draw pile and the stock
    taken together, and leaves the pyramid alone. *)
Lemma discardDraw_count (drawIndex : Z) (this this' : Model) :
  filled (stock this) ->
  discardDraw drawIndex this = (Ok tt, this') ->
  pyramid this' = pyramid this /\ filled (stock this') /\
  cardsToDraw this' + 1 = cardsToDraw this.
Proof.
  intros Hfilled H. apply discardDraw_Ok in H as (Hb & (c & Hat) & ->).
  apply at_lookup in Hat as [_ Hat]. unfold cardsToDraw.
  destruct (stock this) as [|front rest] eqn:Est.
  - simpl. rewrite Est. split; [done|]. split; [done|].
    pose proof (countNonEmpty_insert (draws this) (Z.to_nat drawIndex) (Some c) None Hat).
    simpl in *. lia.
  - assert ((len (front :: rest) >? 0)%Z = true) as ->
      by (apply Z.gtb_lt; unfold len; simpl length; lia).
    simpl. rewrite Est. split; [done|].
    inversion Hfilled as [|? ? Hfront Hrest]; subst. split; [done|].
    destruct front as [c'|]; [|done].
    pose proof (countNonEmpty_insert (draws this) (Z.to_nat drawIndex) (Some c) (Some c') Hat).
    unfold at_. simpl in *. lia.
Qed.

(** Every successful operation other than a restart takes [removedBy]
    cards off the pyramid and [discardedBy] cards out of the draw pile and
    stock. *)
Lemma exec_count (op : operation) (this this' : Model) (r : retval) :
  isStart op = false -> filled (stock this) ->
  exec op this = (Ok r, this') ->
  filled (stock this') /\
  pyramidCount this' + removedBy op = pyramidCount this /\
  cardsToDraw this' + discardedBy op = cardsToDraw this.
Proof.
  intros Hop Hfilled.
  destruct op; try discriminate Hop; simpl; unfold void;
    try (intros [= _ <-]; split; [done | lia]).
  - destruct (remove row card this) as [[[]|] s] eqn:E; simpl; [|discriminate].
    intros [= _ <-]. apply remove_Ok in E as (-> & c & Hc).
    apply getCardAt_Ok in Hc as (_ & Hr & _ & Hat).
    pose proof (clearSlot_count row card this c Hr (eq_sym Hat)).
    split; [done|]. split; [lia | done].
  - destruct (removeTwo _ _ _ _ this) as [[[]|] s] eqn:E; simpl; [|discriminate].
    intros [= _ <-]. apply removeTwo_Ok in E as (-> & Hne & c1 & c2 & Hc1 & Hc2).
    apply getCardAt_Ok in Hc1 as (_ & Hr1 & Hb1 & Hat1).
    apply getCardAt_Ok in Hc2 as (_ & Hr2 & Hb2 & Hat2).
    pose proof (clearSlot_count row1 card1 this c1 Hr1 (eq_sym Hat1)) as H1.
    pose proof (clearSlot_count row2 card2 (clearSlot row1 card1 this) c2) as H2.
    rewrite clearSlot_len_pyramid, clearSlot_at in H2 by lia.
    rewrite bool_decide_eq_false_2 in H2 by (intros [-> ->]; by apply Hne).
    specialize (H2 Hr2 (eq_sym Hat2)).
    split; [done|]. split; [lia | done].
  - destruct (removeUsingDraw _ _ _ this) as [[[]|] s] eqn:E; simpl; [|discriminate].
    intros [= _ <-]. apply removeUsingDraw_Ok in E as ((c & Hc) & Hdiscard).
    apply getCardAt_Ok in Hc as (_ & Hr & _ & Hat).
    pose proof (clearSlot_count row card this c Hr (eq_sym Hat)) as H1.
    apply discardDraw_count in Hdiscard as (Hp & Hf & Hd); [|done].
    split; [done|]. unfold pyramidCount in *. rewrite Hp.
    split; [lia|]. unfold cardsToDraw in *. simpl in Hd. lia.
  - destruct (discardDraw drawIndex this) as [[[]|] s] eqn:E; simpl; [|discriminate].
    intros [= _ <-]. apply discardDraw_count in E as (Hp & Hf & Hd); [|done].
    split; [done|]. unfold pyramidCount. rewrite Hp. split; [lia | done].
Qed.

Lemma play_count (ops : list operation) (this this' : Model) :
  forallb (fun op => negb (isStart op)) ops = true -> filled (stock this) ->
  play ops this = Some this' ->
  pyramidCount this' + removedCount ops = pyramidCount this /\
  cardsToDraw this' + discardedCount ops = cardsToDraw this.
Proof.
  revert this. induction ops as [|op ops IH]; intros this Hops Hfilled Hplay; simpl in *.
  - injection Hplay as <-. unfold removedCount, discardedCount. simpl. lia.
  - apply andb_true_iff in Hops as [Hop Hops]. apply negb_true_iff in Hop.
    destruct (exec op this) as [[r|] this1] eqn:E; [|discriminate].
    apply exec_count in E as (Hf & Hp & Hd); [|done..].
    destruct (IH this1 Hops Hf Hplay) as [IHp IHd].
    unfold removedCount, discardedCount in *. simpl. lia.
Qed.

(** ** The deal *)

(** A loop [for (i = start; i < start + n; i += 1)] keeps an invariant
    indexed by the number of iterations done. *)
Lemma fold_left_seq_invariant {S} (P : nat -> S -> Prop) (f : S -> nat -> S)
    (start n : nat) (s : S) :
  P 0 s ->
  (forall j s, j < n -> P j s -> P (Datatypes.S j) (f s (start + j))) ->
  P n (fold_left f (seq start n) s).
Proof.
  revert P start s. induction n as [|n IH]; intros P start s H0 Hstep; simpl; [done|].
  apply (IH (fun j => P (Datatypes.S j))).
  - rewrite <- (Nat.add_0_r start) at 1. apply Hstep; [lia | done].
  - intros j s' Hj HP. replace (Datatypes.S start + j) with (start + Datatypes.S j) by lia.
    apply Hstep; [lia | done].
Qed.

Lemma emptyRows (n : nat) :
  fold_left (fun (result : list (list slot)) (_ : nat) => result ++ [[]]) (seq 0 n) []
    = replicate n [].
Proof.
  apply (fold_left_seq_invariant (fun j result => result = replicate j [])); [done|].
  intros j s _ ->. clear. induction j as [|j IH]; simpl; [done | by rewrite IH].
Qed.

Lemma concat_emptyRows (n : nat) : concat (replicate n ([] : list slot)) = [].
Proof. induction n as [|n IH]; simpl; done. Qed.

Lemma filled_at (arr : list slot) (i : nat) :
  filled arr -> i < length arr -> at_ arr (Z.of_nat i) <> None.
Proof.
  intros Hfilled Hi. rewrite at_of_nat.
  destruct (lookup_lt_is_Some_2 arr i Hi) as [c Hc]. rewrite Hc. simpl.
  unfold filled in Hfilled. rewrite Forall_lookup in Hfilled. by eapply Hfilled.
Qed.

(** The shuffle keeps the number of cards and puts no empty slot into a
    deck that has none. *)
Lemma shuffle_from_filled rng (currentIndex : nat) (array : list slot) :
  currentIndex <= length array -> filled array ->
  filled (shuffle_from rng currentIndex array) /\
  length (shuffle_from rng currentIndex array) = length array.
Proof.
  revert array. induction currentIndex as [|next IH]; intros array Hle Hfilled; [done|].
  assert (rng (S next) `mod` S next < S next) as Hrandom by (apply Nat.mod_upper_bound; lia).
  set (randomIndex := rng (S next) `mod` S next) in *.
  change (shuffle_from rng (S next) array) with
    (shuffle_from rng next
       (<[randomIndex := at_ array (Z.of_nat next)]>
          (<[next := at_ array (Z.of_nat randomIndex)]> array))).
  destruct (IH (<[randomIndex := at_ array (Z.of_nat next)]>
                 (<[next := at_ array (Z.of_nat randomIndex)]> array))) as [IHf IHl].
  - rewrite !length_insert. lia.
  - apply Forall_insert; [apply Forall_insert; [done|] |]; apply filled_at; (done || lia).
  - split; [done|]. by rewrite IHl, !length_insert.
Qed.

Lemma dealOne_count (row : nat) (result : list (list slot)) (deck : list slot) :
  row < length result ->
  countNonEmpty (concat (fst (dealOne row (result, deck)))) +
    countNonEmpty (snd (dealOne row (result, deck))) =
  countNonEmpty (concat result) + countNonEmpty deck.
Proof.
  intros Hrow. simpl.
  destruct (lookup_lt_is_Some_2 result row Hrow) as [r Hr].
  pose proof (countNonEmpty_alter result row r (fun r => r ++ [at_ deck 0]) Hr) as Halter.
  pose proof (countNonEmpty_tail deck) as Htail.
  cbv beta in Halter. rewrite countNonEmpty_app in Halter. lia.
Qed.

(** What a deal state keeps at every step: the number of rows, the number
    of cards in the rows and the remaining deck taken together, and the
    absence of empty slots in the remaining deck. *)
Lemma dealCards_count rng (numRows : Z) (deck : list slot) (doShuffle : bool) :
  filled deck ->
  countNonEmpty (concat (fst (dealCards rng numRows deck doShuffle))) +
    countNonEmpty (snd (dealCards rng numRows deck doShuffle)) = length deck /\
  filled (snd (dealCards rng numRows deck doShuffle)).
Proof.
  intros Hfilled. unfold dealCards, range. rewrite emptyRows.
  set (n := Z.to_nat numRows).
  set (deck0 := if doShuffle then shuffle rng deck else deck).
  assert (filled deck0 /\ length deck0 = length deck) as [Hf0 Hl0].
  { unfold deck0, shuffle. destruct doShuffle; [|done].
    by apply shuffle_from_filled. }
  pose (keeps := fun st : list (list slot) * list slot =>
    length (fst st) = n /\
    countNonEmpty (concat (fst st)) + countNonEmpty (snd st) = length deck /\
    filled (snd st)).
  assert (keeps (fold_left (fun st row => fold_left (fun st _ => dealOne row st) (seq 0 (S row)) st)
                   (seq 0 n) (replicate n [], deck0))) as (_ & Hcount & Hf); [|done].
  apply (fold_left_seq_invariant (fun _ => keeps)).
  - unfold keeps; simpl. rewrite length_replicate, concat_emptyRows. simpl.
    by rewrite (countNonEmpty_filled deck0 Hf0).
  - intros row st Hrow Hst. simpl (0 + row).
    apply (fold_left_seq_invariant (fun _ => keeps)); [done|].
    intros j [result rest] _ (Hn & Hc & Hf). unfold keeps. simpl in Hn, Hc, Hf.
    rewrite dealOne_count by lia. simpl.
    split; [by rewrite length_alter|]. split; [done | by apply filled_tail].
Qed.

Lemma drawOne_count (st : list slot * list slot) :
  countNonEmpty (fst (drawOne st)) + countNonEmpty (snd (drawOne st)) =
  countNonEmpty (fst st) + countNonEmpty (snd st).
Proof.
  destruct st as [drawn deckCopy]. simpl. rewrite countNonEmpty_app.
  pose proof (countNonEmpty_tail deckCopy). lia.
Qed.

(** A successful [startGame] puts 52 cards in play and leaves no empty slot
    in the stock. *)
Lemma startGame_count rng deck doShuffle numRows numDraw (this this' : Model) caller :
  startGame rng deck doShuffle numRows numDraw this = (Ok tt, this', caller) ->
  filled (stock this') /\ cardsInPlay this' = 52.
Proof.
  unfold startGame. destruct deck as [cards|]; [|discriminate].
  destruct (startGuards cards numRows numDraw) eqn:Eg; [|discriminate].
  assert (isValidDeck cards = Ok true) as Hvalid.
  { unfold startGuards in Eg. destruct (isValidDeck cards) as [[]|]; done. }
  destruct (isValidDeck_true cards Hvalid) as (cs & -> & Hlen & _).
  rewrite forEach_push. simpl.
  assert (filled (map Some cs)) as Hfilled.
  { apply Forall_forall. intros c Hc. apply list_elem_of_fmap in Hc as (c' & -> & _). done. }
  pose proof (dealCards_count rng numRows (map Some cs) doShuffle Hfilled) as [Hcount Hf].
  destruct (dealCards rng numRows (map Some cs) doShuffle) as [dealt rest]. simpl in *.
  pose (keeps := fun st : list slot * list slot =>
    countNonEmpty (fst st) + countNonEmpty (snd st) = countNonEmpty rest /\ filled (snd st)).
  assert (keeps (fold_left (fun st _ => drawOne st) (range numDraw) ([], rest))) as Hdraws.
  { apply (fold_left_seq_invariant (fun _ => keeps)); [done|].
    intros j st _ [Hc Hfs]. split; [by rewrite drawOne_count|].
    destruct st; simpl. by apply filled_tail. }
  destruct (fold_left _ (range numDraw) _) as [drawn deckCopy]. destruct Hdraws as [Hc Hfs].
  intros [= <- _]. simpl in *. split; [done|].
  unfold cardsInPlay; simpl. rewrite <- (countNonEmpty_filled deckCopy Hfs).
  rewrite length_map in Hcount. lia.
Qed.

(** C3 (as amended): after a successful [startGame] and any sequence of
    successful operations other than a restart, the non-empty pyramid slots
    are those of the deal less the removed-card count, the cards of the
    draw pile and stock are those of the deal less the discarded-card
    count, and the cards in play (non-empty pyramid slots, non-empty draw
    slots and stock) are 52 less the removed-card count and the
    discarded-card count. *)
Theorem cards_in_play rng deck doShuffle numRows numDraw (this0 this1 this2 : Model)
    (ops : list operation) :
  exec (OpStartGame rng deck doShuffle numRows numDraw) this0 = (Ok RVoid, this1) ->
  forallb (fun op => negb (isStart op)) ops = true ->
  play ops this1 = Some this2 ->
  cardsInPlay this1 = 52 /\
  pyramidCount this2 + removedCount ops = pyramidCount this1 /\
  cardsToDraw this2 + discardedCount ops = cardsToDraw this1 /\
  cardsInPlay this2 + removedCount ops + discardedCount ops = 52.
Proof.
  simpl. unfold void. intros Hstart Hops Hplay.
  destruct (startGame rng deck doShuffle numRows numDraw this0) as [[[[]|] s] caller] eqn:E;
    [|discriminate].
  simpl in Hstart. injection Hstart as ->.
  apply startGame_count in E as [Hfilled H52].
  destruct (play_count ops this1 this2 Hops Hfilled Hplay) as [Hp Hd].
  unfold cardsInPlay, pyramidCount, cardsToDraw in *. lia.
Qed.

Lemma cards_in_play_witness :
  exists this2,
    play [OpRemoveUsingDraw 0 2 2; OpDiscardDraw 1; OpGetScore] smallGame = Some this2 /\
    cardsInPlay this2 + 1 + 2 = 52.
Proof.
  eexists. split; [vm_compute; reflexivity|].
  apply (cards_in_play (fun _ => O) (Some standardDeck) false 3 3 constructor smallGame _
           [OpRemoveUsingDraw 0 2 2; OpDiscardDraw 1; OpGetScore]);
    vm_compute; reflexivity.
Defined.

(** C3 (as stated) fails: a successful [discardDraw] in the game just dealt
    leaves 51 cards in play, while the removed-card count is still 0. *)
Lemma discardDraw_loses_a_card :
  exec (OpStartGame (fun _ => O) (Some standardDeck) false 3 3) constructor
    = (Ok RVoid, smallGame) /\
  exists this2,
    play [OpDiscardDraw 0] smallGame = Some this2 /\
    removedCount [OpDiscardDraw 0] = 0 /\
    cardsInPlay this2 = 51 /\
    cardsInPlay this2 <> 52 - removedCount [OpDiscardDraw 0].
Proof.
  split; [vm_compute; reflexivity|]. eexists. split; [vm_compute; reflexivity|].
  split; [reflexivity|]. split; [vm_compute; reflexivity|]. by vm_compute.
Qed.

(** ** The triangular shape *)

Lemma rowsFrom_of_lookup (k : nat) (rows : list (list slot)) :
  (forall r row, rows !! r = Some row -> length row = S (k + r)) -> rowsFrom k rows = true.
Proof.
  revert k. induction rows as [|row0 rows IH]; intros k Hrows; [done|].
  simpl. apply andb_true_iff. split.
  - apply Nat.eqb_eq. rewrite (Hrows 0 row0 eq_refl). lia.
  - apply IH. intros r row Hr. rewrite (Hrows (S r) row Hr). lia.
Qed.

Lemma rowsFrom_alter_insert (k i j : nat) (x : slot) (rows : list (list slot)) :
  rowsFrom k (alter (fun r => <[j := x]> r) i rows) = rowsFrom k rows.
Proof.
  revert k i. induction rows as [|row0 rows IH]; intros k i; [done|].
  destruct i as [|i].
  - change (alter (fun r => <[j := x]> r) 0 (row0 :: rows)) with (<[j := x]> row0 :: rows).
    simpl. by rewrite length_insert.
  - change (alter (fun r => <[j := x]> r) (S i) (row0 :: rows))
      with (row0 :: alter (fun r => <[j := x]> r) i rows).
    simpl. by rewrite IH.
Qed.

Lemma clearSlot_shape (row col : Z) (this : Model) :
  pyramidShape (clearSlot row col this) = pyramidShape this.
Proof. apply rowsFrom_alter_insert. Qed.

Lemma remove_shape (row card : Z) : preserves pyramidShape (remove row card).
Proof. unfold remove. preserving ltac:(apply clearSlot_shape). Qed.

Lemma removeTwo_shape (row1 card1 row2 card2 : Z) :
  preserves pyramidShape (removeTwo row1 card1 row2 card2).
Proof. unfold removeTwo. preserving ltac:(apply clearSlot_shape). Qed.

Lemma discardDraw_shape (drawIndex : Z) : preserves pyramidShape (discardDraw drawIndex).
Proof. unfold discardDraw. preserving ltac:(reflexivity). Qed.

Lemma removeUsingDraw_shape (drawIndex row card : Z) :
  preserves pyramidShape (removeUsingDraw drawIndex row card).
Proof.
  unfold removeUsingDraw. preserving ltac:(first [apply clearSlot_shape | reflexivity]).
Qed.

(** [dealCards] builds the triangle: row [r] receives [r + 1] cards. *)
Lemma dealCards_shape rng (numRows : Z) (deck : list slot) (doShuffle : bool) :
  rowsFrom 0 (fst (dealCards rng numRows deck doShuffle)) = true.
Proof.
  unfold dealCards, range. rewrite emptyRows.
  set (n := Z.to_nat numRows).
  set (deck0 := if doShuffle then shuffle rng deck else deck).
  pose (shaped := fun (k j : nat) (st : list (list slot) * list slot) =>
    forall i row, fst st !! i = Some row ->
      length row = if decide (i < k) then S i else if decide (i = k) then j else 0).
  assert (shaped n 0 (fold_left (fun st row =>
            fold_left (fun st _ => dealOne row st) (seq 0 (S row)) st)
            (seq 0 n) (replicate n [], deck0))) as Hshaped.
  { apply (fold_left_seq_invariant (fun k => shaped k 0)).
    - intros i row Hrow. simpl in Hrow. apply lookup_replicate in Hrow as [Hrow _].
      subst row. repeat case_decide; (done || lia).
    - intros k st _ Hst. simpl (0 + k).
      assert (shaped k (S k) (fold_left (fun st _ => dealOne k st) (seq 0 (S k)) st)) as Hk.
      { apply (fold_left_seq_invariant (fun j => shaped k j)); [done|].
        intros j [result rest] _ Hj i row Hrow. simpl in Hrow.
        rewrite list_lookup_alter in Hrow. case_decide as Hik.
        - subst i. destruct (result !! k) as [r|] eqn:Hr; [|done].
          injection Hrow as <-. rewrite length_app. simpl.
          rewrite (Hj k r Hr). repeat case_decide; lia.
        - rewrite (Hj i row Hrow). repeat case_decide; lia. }
      intros i row Hrow. rewrite (Hk i row Hrow). repeat case_decide; lia. }
  apply rowsFrom_of_lookup. intros r row Hrow. rewrite (Hshaped r row Hrow).
  apply lookup_lt_Some in Hrow.
  assert (length (fst (fold_left (fun st row =>
            fold_left (fun st _ => dealOne row st) (seq 0 (S row)) st)
            (seq 0 n) (replicate n [], deck0))) = n) as Hlen.
  { apply (fold_left_seq_invariant (fun _ st => length (fst st) = n)).
    - simpl. apply length_replicate.
    - intros k st _ Hst.
      apply (fold_left_seq_invariant (fun _ st => length (fst st) = n)); [done|].
      intros j [result rest] _ Hr. simpl in *. by rewrite length_alter. }
  case_decide; lia.
Qed.

Lemma startGame_shape rng deck doShuffle numRows numDraw (this this' : Model) caller :
  startGame rng deck doShuffle numRows numDraw this = (Ok tt, this', caller) ->
  gamestate this' = STARTED /\ pyramidShape this' = true.
Proof.
  unfold startGame. destruct deck as [cards|]; [|discriminate].
  destruct (startGuards cards numRows numDraw); [|discriminate].
  pose proof (dealCards_shape rng numRows
    (forEach cards (fun value deckCopy => deckCopy ++ [value]) []) doShuffle) as Hshape.
  destruct (dealCards _ _ _ _) as [dealt rest], (fold_left _ _ _) as [drawn deckCopy].
  intros [= <- _]. split; [reflexivity | exact Hshape].
Qed.

(** Every state of a game in progress is STARTED and has the triangular
    shape: a successful [startGame] establishes both, and no operation,
    successful or not, undoes them. *)
Lemma exec_started (op : operation) (this : Model) :
  gamestate this = STARTED -> pyramidShape this = true ->
  gamestate (snd (exec op this)) = STARTED /\ pyramidShape (snd (exec op this)) = true.
Proof.
  intros Hs Hshape. destruct op; simpl; try done.
  - destruct (startGame rng deck doShuffle numRows numDraw this) as [[[[]|e] s] caller] eqn:E.
    + by apply startGame_shape in E.
    + apply startGame_throw in E as [-> _]. done.
  - by rewrite remove_gamestate, remove_shape.
  - by rewrite removeTwo_gamestate, removeTwo_shape.
  - by rewrite removeUsingDraw_gamestate, removeUsingDraw_shape.
  - by rewrite discardDraw_gamestate, discardDraw_shape.
Qed.

Lemma play_started rng deck doShuffle numRows numDraw (this0 this1 this2 : Model)
    (ops : list operation) :
  exec (OpStartGame rng deck doShuffle numRows numDraw) this0 = (Ok RVoid, this1) ->
  play ops this1 = Some this2 ->
  gamestate this2 = STARTED /\ pyramidShape this2 = true.
Proof.
  simpl. unfold void. intros Hstart.
  destruct (startGame rng deck doShuffle numRows numDraw this0) as [[[[]|] s] caller] eqn:E;
    [|discriminate].
  simpl in Hstart. injection Hstart as ->.
  apply startGame_shape in E. clear this0. revert this1 E.
  induction ops as [|op ops IH]; intros this1 [Hs Hshape] Hplay; simpl in Hplay.
  - by injection Hplay as <-.
  - pose proof (exec_started op this1 Hs Hshape) as Hnext.
    destruct (exec op this1) as [[r|] this']; [|discriminate].
    by apply (IH this').
Qed.

(** ** Single removal in a game in progress *)

Lemma inGame_started (this : Model) :
  inGame this -> gamestate this = STARTED /\ pyramidShape this = true.
Proof.
  intros (rng & deck & doShuffle & numRows & numDraw & this0 & this1 & ops & Hstart & Hplay).
  by eapply play_started.
Qed.

(** C6: in a started game (an engine dealt by a successful [startGame] and
    played by successful operations), for a row in [0,R) and a column in
    [0,row] whose slot holds a card,
    [remove] returns normally exactly when the card's rank is 13 and the
    slot is uncovered; it then leaves the engine with that one slot empty,
    every other pyramid slot, the length of every row, the draw pile, the
    stock and the lifecycle flag as they were. A card of rank other than 13
    fails with InvalidMove, and a covered card of rank 13 fails with
    Covered. *)
Theorem remove_card (row col : Z) (this : Model) (c : Card) :
  inGame this ->
  (0 <= row < len (pyramid this))%Z -> (0 <= col <= row)%Z ->
  at_ (rowAt this row) col = Some c ->
  ((exists this', remove row col this = (Ok tt, this')) <->
     value c = 13%Z /\ uncovered this row col = true) /\
  (forall this', remove row col this = (Ok tt, this') ->
     at_ (rowAt this' row) col = None /\
     (forall row' col', (0 <= row')%Z -> (0 <= col')%Z -> (row', col') <> (row, col) ->
        at_ (rowAt this' row') col' = at_ (rowAt this row') col') /\
     len (pyramid this') = len (pyramid this) /\
     (forall row', len (rowAt this' row') = len (rowAt this row')) /\
     draws this' = draws this /\ stock this' = stock this /\
     gamestate this' = gamestate this) /\
  (value c <> 13%Z -> remove row col this = (Throw InvalidMove, this)) /\
  (value c = 13%Z -> uncovered this row col = false ->
     remove row col this = (Throw Covered, this)).
Proof.
  intros Hgame Hr Hc Hat. destruct (inGame_started this Hgame) as [Hs Hshape].
  pose proof (remove_cases row col this c Hs Hshape Hr Hc Hat) as Hcases.
  pose proof (rowAt_shape this row Hshape Hr) as Hlen.
  split; [|split; [|split]].
  - rewrite Hcases. destruct (Z.eqb_spec (value c) 13) as [Hv|Hv]; simpl.
    + destruct (uncovered this row col); split.
      * done.
      * intros _. by eexists.
      * intros [this' H]. discriminate.
      * intros [_ H]. discriminate.
    + split; [intros [this' H]; discriminate | tauto].
  - intros this' Hok. rewrite Hcases in Hok.
    destruct (negb _); [discriminate|].
    destruct (uncovered this row col); [|discriminate].
    injection Hok as <-.
    split; [|split; [|split; [|split]]].
    + rewrite clearSlot_at by lia. by rewrite bool_decide_eq_true_2.
    + intros row' col' Hr' Hc' Hne. rewrite clearSlot_at by lia.
      rewrite bool_decide_eq_false_2; [reflexivity|].
      intros [-> ->]. by apply Hne.
    + apply clearSlot_len_pyramid.
    + intros row'. apply clearSlot_len_rowAt.
    + done.
  - intros Hv. rewrite Hcases.
    destruct (Z.eqb_spec (value c) 13); [done | reflexivity].
  - intros Hv Hcov. rewrite Hcases, Hcov.
    destruct (Z.eqb_spec (value c) 13); [reflexivity | done].
Qed.

Lemma remove_card_witness :
  (exists this', remove 0 0 kingGame = (Ok tt, this')) /\
  remove 2 2 smallGame = (Throw InvalidMove, smallGame).
Proof.
  assert (inGame kingGame) as Hking.
  { exists (fun _ => O), (Some (reverse standardDeck)), false, 1%Z, 3%Z, constructor,
      kingGame, []. split; vm_compute; reflexivity. }
  assert (inGame smallGame) as Hsmall.
  { exists (fun _ => O), (Some standardDeck), false, 3%Z, 3%Z, constructor, smallGame, [].
    split; vm_compute; reflexivity. }
  split.
  - apply (proj1 (remove_card 0 0 kingGame (mkCard DIAMOND 13)
                    Hking ltac:(by vm_compute) ltac:(lia) eq_refl)).
    split; reflexivity.
  - apply (proj1 (proj2 (proj2 (remove_card 2 2 smallGame (mkCard HEART 6)
                    Hsmall ltac:(by vm_compute) ltac:(lia) eq_refl)))).
    discriminate.
Defined.

(** * Further properties of the engine *)

(** ** The shuffle *)

Lemma at_nat_lookup (arr : list slot) (i : nat) (x : slot) :
  arr !! i = Some x -> at_ arr (Z.of_nat i) = x.
Proof. intros Hi. by rewrite at_of_nat, Hi. Qed.

Lemma shuffle_from_Permutation rng (currentIndex : nat) (array : list slot) :
  currentIndex <= length array -> shuffle_from rng currentIndex array ≡ₚ array.
Proof.
  revert array. induction currentIndex as [|next IH]; intros array Hle; [done|].
  assert (rng (S next) `mod` S next < S next) as Hrandom by (apply Nat.mod_upper_bound; lia).
  set (randomIndex := rng (S next) `mod` S next) in *.
  destruct (lookup_lt_is_Some_2 array next) as [x Hx]; [lia|].
  destruct (lookup_lt_is_Some_2 array randomIndex) as [y Hy]; [lia|].
  change (shuffle_from rng (S next) array) with
    (shuffle_from rng next
       (<[randomIndex := at_ array (Z.of_nat next)]>
          (<[next := at_ array (Z.of_nat randomIndex)]> array))).
  rewrite (at_nat_lookup _ _ _ Hx), (at_nat_lookup _ _ _ Hy).
  rewrite IH by (rewrite !length_insert; lia).
  by apply Permutation_insert_swap.
Qed.

Lemma shuffle_length rng (array : list slot) : length (shuffle rng array) = length array.
Proof.
  assert (shuffle rng array ≡ₚ array) as Hperm by by apply shuffle_from_Permutation.
  by rewrite Hperm.
Qed.

(** X1: [shuffle] returns a rearrangement of the array it is given,
    whatever the random source yields: the same slots, each as often as
    before, and so an array of the same length. *)
Theorem shuffle_Permutation rng (array : list slot) :
  shuffle rng array ≡ₚ array /\ length (shuffle rng array) = length array.
Proof.
  split; [by apply shuffle_from_Permutation | apply shuffle_length].
Qed.

(** ** The deal in general *)

Lemma tri_double (r : nat) : 2 * tri r = r * (r + 1).
Proof. induction r as [|r IH]; simpl; lia. Qed.

Lemma tri_mono (r s : nat) : r <= s -> tri r <= tri s.
Proof. induction 1; simpl; lia. Qed.

Lemma tri_Z (numRows : Z) :
  (0 <= numRows)%Z -> ((numRows * (numRows + 1)) / 2 = Z.of_nat (tri (Z.to_nat numRows)))%Z.
Proof.
  intros Hn. pose proof (tri_double (Z.to_nat numRows)) as Hd.
  replace (numRows * (numRows + 1))%Z with (Z.of_nat (tri (Z.to_nat numRows)) * 2)%Z by lia.
  by rewrite Z.div_mul.
Qed.

Lemma deal_front (deck : list slot) (m : nat) :
  m < length deck ->
  exists x, deck !! m = Some x /\ at_ (drop m deck) 0 = x /\
    tail (drop m deck) = drop (S m) deck.
Proof.
  intros Hm. destruct (lookup_lt_is_Some_2 deck m Hm) as [x Hx].
  exists x. split; [done|]. rewrite (drop_S _ _ _ Hx). by destruct x.
Qed.

(** The rows that [dealCards] builds and the array it leaves, when the
    array holds enough cards for the rows. *)
Lemma dealCards_rows rng (numRows : Z) (deck : list slot) (doShuffle : bool) :
  tri (Z.to_nat numRows) <= length deck ->
  dealCards rng numRows deck doShuffle =
    (map (fun r => take (S r) (drop (tri r) (dealtFrom rng deck doShuffle)))
         (seq 0 (Z.to_nat numRows)),
     drop (tri (Z.to_nat numRows)) (dealtFrom rng deck doShuffle)).
Proof.
  intros Henough. unfold dealCards, range. rewrite emptyRows.
  set (n := Z.to_nat numRows) in *.
  fold (dealtFrom rng deck doShuffle). set (deck0 := dealtFrom rng deck doShuffle).
  assert (tri n <= length deck0) as Hlen.
  { unfold deck0, dealtFrom. destruct doShuffle; [|done].
    by rewrite (shuffle_length rng deck). }
  pose (dealing := fun (k j : nat) (st : list (list slot) * list slot) =>
    length (fst st) = n /\ snd st = drop (tri k + j) deck0 /\
    forall i, i < n -> fst st !! i = Some
      (if decide (i < k) then take (S i) (drop (tri i) deck0)
       else if decide (i = k) then take j (drop (tri k) deck0) else [])).
  assert (dealing n 0 (fold_left (fun st row =>
            fold_left (fun st _ => dealOne row st) (seq 0 (S row)) st)
            (seq 0 n) (replicate n [], deck0))) as (Hn & Hrest & Hrows).
  { apply (fold_left_seq_invariant (fun k => dealing k 0)).
    - split; [apply length_replicate|]. split; [done|]. intros i Hi. simpl.
      rewrite lookup_replicate_2 by done. repeat case_decide; by rewrite ?take_0.
    - intros k st Hk Hst. simpl (0 + k).
      assert (dealing k (S k) (fold_left (fun st _ => dealOne k st) (seq 0 (S k)) st))
        as (Hn & Hrest & Hrows).
      { apply (fold_left_seq_invariant (fun j => dealing k j)); [done|].
        intros j [result rest] Hj (Hn & Hrest & Hrows). simpl in Hn, Hrest, Hrows.
        pose proof (tri_mono (S k) n ltac:(lia)) as Hmono. simpl in Hmono.
        destruct (deal_front deck0 (tri k + j)) as (x & Hx & Hat & Htail); [lia|].
        subst rest. split; [by simpl; rewrite length_alter|].
        split; [simpl; rewrite Htail; f_equal; lia|].
        intros i Hi. simpl. rewrite Hat, list_lookup_alter.
        case_decide as Hki; [subst i|]; rewrite Hrows by done; simpl;
          repeat case_decide; try lia; try done.
        f_equal. symmetry. apply take_S_r. by rewrite lookup_drop. }
      split; [done|]. split; [rewrite Hrest; f_equal; simpl; lia|].
      intros i Hi. rewrite (Hrows i Hi). repeat case_decide; try lia; try done.
      by subst i. }
  rewrite Nat.add_0_r in Hrest.
  destruct (fold_left _ (seq 0 n) _) as [result rest]. simpl in Hn, Hrest, Hrows.
  f_equal; [|done]. apply list_eq. intros i.
  destruct (decide (i < n)) as [Hi|Hi].
  - rewrite (Hrows i Hi), list_lookup_fmap, lookup_seq_lt by done. simpl.
    by rewrite decide_True.
  - rewrite !lookup_ge_None_2; [done | rewrite length_map, length_seq; lia | lia].
Qed.

(** The draw pile that [startGame] fills and the stock it leaves. *)
Lemma drawn_cards (numDraw : nat) (deckCopy : list slot) :
  numDraw <= length deckCopy ->
  fold_left (fun st _ => drawOne st) (seq 0 numDraw) ([], deckCopy) =
    (take numDraw deckCopy, drop numDraw deckCopy).
Proof.
  intros Henough.
  pose (drawing := fun (j : nat) (st : list slot * list slot) =>
    st = (take j deckCopy, drop j deckCopy)).
  apply (fold_left_seq_invariant drawing); [done|].
  intros j [drawn rest] Hj Hst. injection Hst as -> ->.
  destruct (deal_front deckCopy j) as (x & Hx & Hat & Htail); [lia|].
  unfold drawing. simpl. by rewrite Hat, Htail, (take_S_r _ _ _ Hx).
Qed.

(** ** Starting a game *)

Lemma isEnoughCards_tri (numRows numDraw : Z) :
  (0 <= numRows)%Z -> (0 <= numDraw)%Z ->
  isEnoughCards 52 numRows numDraw = true <->
  tri (Z.to_nat numRows) + Z.to_nat numDraw <= 52.
Proof.
  intros Hr Hd. unfold isEnoughCards. rewrite (tri_Z numRows Hr), Z.leb_le. lia.
Qed.

(** Where a successful [startGame] leaves the engine and the caller's
    deck. *)
Lemma startGame_Ok rng (deck : list slot) doShuffle numRows numDraw (this this' : Model) caller :
  startGame rng (Some deck) doShuffle numRows numDraw this = (Ok tt, this', caller) ->
  isValidDeck deck = Ok true /\ (0 < numRows)%Z /\ (0 <= numDraw)%Z /\
  tri (Z.to_nat numRows) + Z.to_nat numDraw <= 52 /\
  caller = Some deck /\
  this' =
    {| pyramid := map (fun r => take (S r) (drop (tri r) (dealtFrom rng deck doShuffle)))
                      (seq 0 (Z.to_nat numRows));
       stock := drop (tri (Z.to_nat numRows) + Z.to_nat numDraw) (dealtFrom rng deck doShuffle);
       draws := take (Z.to_nat numDraw)
                  (drop (tri (Z.to_nat numRows)) (dealtFrom rng deck doShuffle));
       gamestate := STARTED |}.
Proof.
  unfold startGame. destruct (startGuards deck numRows numDraw) as [[]|] eqn:Eg; [|discriminate].
  assert (isValidDeck deck = Ok true) as Hvalid.
  { unfold startGuards in Eg. destruct (isValidDeck deck) as [[]|]; done. }
  rewrite (startGuards_valid deck numRows numDraw Hvalid) in Eg.
  destruct (negb (isEnoughCards 52 numRows numDraw)) eqn:Ee; [discriminate|].
  destruct (_ || _)%Z eqn:El; [discriminate|].
  apply negb_false_iff in Ee. apply orb_false_iff in El as [Hr Hd].
  apply Z.leb_gt in Hr. apply Z.ltb_ge in Hd.
  apply isEnoughCards_tri in Ee; [|lia..].
  destruct (isValidDeck_true deck Hvalid) as (cs & Hcs & Hlen & _).
  assert (length deck = 52) as Hdeck by (subst deck; by rewrite length_map).
  rewrite forEach_push, app_nil_l.
  rewrite dealCards_rows by lia.
  unfold range. rewrite drawn_cards.
  - intros [= <- <-]. rewrite drop_drop. done.
  - rewrite length_drop. unfold dealtFrom. destruct doShuffle; [|lia].
    rewrite (shuffle_length rng deck). lia.
Qed.

(** X2: for a deck that [isValidDeck] accepts, [startGame] returns normally
    exactly when there is at least one row, no negative number of draw
    cards, and the rows and draw cards together need at most 52 cards; this
    allows at most 9 rows and at most 51 draw cards. Otherwise it fails with
    InsufficientCards when the layout needs more than 52 cards, whatever
    the signs of the two numbers, and with InvalidLayout when the cards
    suffice but there is no row or a negative number of draw cards. *)
Theorem startGame_outcome rng (deck : list slot) doShuffle numRows numDraw (this : Model) :
  isValidDeck deck = Ok true ->
  fst (fst (startGame rng (Some deck) doShuffle numRows numDraw this)) =
    (if (52 <? numRows * (numRows + 1) / 2 + numDraw)%Z then Throw InsufficientCards
     else if ((numRows <=? 0) || (numDraw <? 0))%Z then Throw InvalidLayout
     else Ok tt) /\
  (fst (fst (startGame rng (Some deck) doShuffle numRows numDraw this)) = Ok tt ->
     (1 <= numRows <= 9)%Z /\ (0 <= numDraw <= 51)%Z).
Proof.
  intros Hvalid.
  assert (fst (fst (startGame rng (Some deck) doShuffle numRows numDraw this)) =
          startGuards deck numRows numDraw) as ->.
  { unfold startGame. destruct (startGuards deck numRows numDraw) as [[]|]; [|done].
    by destruct (dealCards _ _ _ _), (fold_left _ _ _). }
  rewrite (startGuards_valid deck numRows numDraw Hvalid). unfold isEnoughCards.
  assert (negb (numRows * (numRows + 1) / 2 + numDraw <=? 52)%Z =
          (52 <? numRows * (numRows + 1) / 2 + numDraw)%Z) as ->.
  { destruct (Z.leb_spec (numRows * (numRows + 1) / 2 + numDraw) 52),
      (Z.ltb_spec 52 (numRows * (numRows + 1) / 2 + numDraw)); simpl; (done || lia). }
  split; [done|].
  destruct (Z.ltb_spec 52 (numRows * (numRows + 1) / 2 + numDraw)) as [|He]; [discriminate|].
  destruct (Z.leb_spec numRows 0); simpl; [discriminate|].
  destruct (Z.ltb_spec numDraw 0); simpl; [discriminate|]. intros _.
  rewrite tri_Z in He by lia.
  assert (Z.to_nat numRows <= 9).
  { destruct (decide (Z.to_nat numRows <= 9)) as [|Hbig]; [done|].
    pose proof (tri_mono 10 (Z.to_nat numRows) ltac:(lia)) as Hmono. simpl in Hmono. lia. }
  pose proof (tri_mono 1 (Z.to_nat numRows) ltac:(lia)) as Hone. simpl in Hone. lia.
Qed.

Lemma startGame_outcome_witness :
  fst (fst (startGame (fun _ => O) (Some standardDeck) false 9 7 constructor)) = Ok tt /\
  fst (fst (startGame (fun _ => O) (Some standardDeck) false 9 8 constructor))
    = Throw InsufficientCards /\
  fst (fst (startGame (fun _ => O) (Some standardDeck) false (-3) 60 constructor))
    = Throw InsufficientCards /\
  fst (fst (startGame (fun _ => O) (Some standardDeck) false 20 (-200) constructor))
    = Throw InvalidLayout.
Proof.
  assert (isValidDeck standardDeck = Ok true) as Hvalid by by vm_compute.
  split; [|split; [|split]].
  - by rewrite (proj1 (startGame_outcome (fun _ => O) standardDeck false 9 7 constructor Hvalid)).
  - by rewrite (proj1 (startGame_outcome (fun _ => O) standardDeck false 9 8 constructor Hvalid)).
  - by rewrite (proj1 (startGame_outcome (fun _ => O) standardDeck false (-3) 60 constructor Hvalid)).
  - by rewrite (proj1 (startGame_outcome (fun _ => O) standardDeck false 20 (-200) constructor
                         Hvalid)).
Defined.

(** X3: a successful [startGame] deals in order from the deck (from the
    shuffled deck when asked to shuffle): row [r] holds the [r + 1] cards
    that follow the first [r (r + 1) / 2], the draw pile holds the next
    [numDraw] cards, and the stock holds all the remaining cards in their
    order; the caller's deck array is left as it was. *)
Theorem startGame_deal rng (deck : list slot) doShuffle numRows numDraw (this this' : Model)
    caller :
  startGame rng (Some deck) doShuffle numRows numDraw this = (Ok tt, this', caller) ->
  pyramid this' = map (fun r => take (S r) (drop (tri r) (dealtFrom rng deck doShuffle)))
                      (seq 0 (Z.to_nat numRows)) /\
  draws this' = take (Z.to_nat numDraw)
                  (drop (tri (Z.to_nat numRows)) (dealtFrom rng deck doShuffle)) /\
  stock this' = drop (tri (Z.to_nat numRows) + Z.to_nat numDraw)
                  (dealtFrom rng deck doShuffle) /\
  length (stock this') = 52 - tri (Z.to_nat numRows) - Z.to_nat numDraw /\
  gamestate this' = STARTED /\
  caller = Some deck.
Proof.
  intros Hstart. apply startGame_Ok in Hstart as (Hvalid & _ & _ & _ & -> & ->). simpl.
  repeat split. rewrite length_drop.
  destruct (isValidDeck_true deck Hvalid) as (cs & -> & Hlen & _).
  unfold dealtFrom. destruct doShuffle.
  - rewrite (shuffle_length rng (map Some cs)), length_map. lia.
  - rewrite length_map. lia.
Qed.

Lemma startGame_deal_witness :
  pyramid kingGame = [[Some (mkCard DIAMOND 13)]] /\
  draws kingGame =
    [Some (mkCard DIAMOND 12); Some (mkCard DIAMOND 11); Some (mkCard DIAMOND 10)] /\
  length (stock kingGame) = 48.
Proof.
  destruct (startGame_deal (fun _ => O) (reverse standardDeck) false 1 3 constructor kingGame
              (Some (reverse standardDeck))) as (Hp & Hd & _ & Hs & _);
    [by vm_compute|].
  rewrite Hp, Hd, Hs. by vm_compute.
Defined.

Lemma concat_rows (deck : list slot) (n : nat) :
  concat (map (fun r => take (S r) (drop (tri r) deck)) (seq 0 n)) = take (tri n) deck.
Proof.
  induction n as [|n IH]; [done|].
  rewrite seq_S, map_app, concat_app, IH. simpl. rewrite app_nil_r.
  apply take_take_drop.
Qed.

(** X4: after a successful [startGame] the cards of the pyramid (row by
    row), of the draw pile and of the stock, in this order, are the dealt
    deck itself: the deck in its order when it is not shuffled, and in any
    case a rearrangement of the deck, so that every card of the deck is in
    exactly one place. *)
Theorem startGame_inPlay rng (deck : list slot) doShuffle numRows numDraw (this this' : Model)
    caller :
  startGame rng (Some deck) doShuffle numRows numDraw this = (Ok tt, this', caller) ->
  concat (pyramid this') ++ draws this' ++ stock this' = dealtFrom rng deck doShuffle /\
  concat (pyramid this') ++ draws this' ++ stock this' ≡ₚ deck /\
  (doShuffle = false -> concat (pyramid this') ++ draws this' ++ stock this' = deck).
Proof.
  intros Hstart. apply startGame_Ok in Hstart as (_ & _ & _ & _ & _ & ->). simpl.
  assert (forall l : list slot,
    concat (map (fun r => take (S r) (drop (tri r) l)) (seq 0 (Z.to_nat numRows))) ++
    take (Z.to_nat numDraw) (drop (tri (Z.to_nat numRows)) l) ++
    drop (tri (Z.to_nat numRows) + Z.to_nat numDraw) l = l) as Hall.
  { intros l. rewrite concat_rows, app_assoc, take_take_drop. apply take_drop. }
  rewrite Hall. split; [done|]. split.
  - unfold dealtFrom. destruct doShuffle; [|done]. by apply shuffle_from_Permutation.
  - by intros ->.
Qed.

Lemma startGame_inPlay_witness :
  concat (pyramid smallGame) ++ draws smallGame ++ stock smallGame = standardDeck.
Proof.
  apply (startGame_inPlay (fun _ => O) standardDeck false 3 3 constructor smallGame
           (Some standardDeck)); [by vm_compute | reflexivity].
Defined.

Lemma dealt_row_length rng (deck : list slot) doShuffle (n r : nat) :
  length deck = 52 -> tri n <= 52 -> r < n ->
  length (take (S r) (drop (tri r) (dealtFrom rng deck doShuffle))) = S r.
Proof.
  intros Hdeck Hn Hr. rewrite length_take, length_drop.
  assert (length (dealtFrom rng deck doShuffle) = 52) as ->.
  { unfold dealtFrom. destruct doShuffle; [|done].
    by rewrite (shuffle_length rng deck). }
  pose proof (tri_mono (S r) n ltac:(lia)) as Hmono. simpl in Hmono. lia.
Qed.

Lemma startGame_accessors rng (deck : list slot) doShuffle numRows numDraw
    (this this' : Model) caller (row col : Z) :
  startGame rng (Some deck) doShuffle numRows numDraw this = (Ok tt, this', caller) ->
  (0 <= row < numRows)%Z -> (0 <= col <= row)%Z ->
  getNumRows this' = numRows /\ getNumDraw this' = numDraw /\
  getRowWidth row this' = Ok (row + 1)%Z /\
  getCardAt row col this' =
    Ok (at_ (dealtFrom rng deck doShuffle) (row * (row + 1) / 2 + col)).
Proof.
  intros Hstart Hr Hc.
  apply startGame_Ok in Hstart as (Hvalid & Hrows & Hdraws & Henough & _ & ->).
  destruct (isValidDeck_true deck Hvalid) as (cs & Hcs & Hlen & _).
  assert (length deck = 52) as Hdeck by (subst deck; by rewrite length_map).
  assert (length (dealtFrom rng deck doShuffle) = 52) as Hdealt.
  { unfold dealtFrom. destruct doShuffle; [|done].
    by rewrite (shuffle_length rng deck). }
  set (this' := {| pyramid := _ |}).
  assert (len (pyramid this') = numRows) as Hlenp.
  { unfold len. simpl. rewrite length_map, length_seq. lia. }
  assert (rowAt this' row =
          take (S (Z.to_nat row)) (drop (tri (Z.to_nat row)) (dealtFrom rng deck doShuffle)))
    as Hrow.
  { unfold rowAt. simpl. rewrite list_lookup_fmap, lookup_seq_lt by lia. done. }
  assert (len (rowAt this' row) = (row + 1)%Z) as Hwidth.
  { rewrite Hrow. unfold len. rewrite (dealt_row_length rng deck doShuffle (Z.to_nat numRows));
      lia. }
  split; [done|]. split.
  { unfold getNumDraw, len. simpl. rewrite length_take, length_drop. lia. }
  split.
  - unfold getRowWidth, checkStarted, throwIf. simpl.
    assert (isRowInBounds row this' = true) as -> by (apply isRowInBounds_true; lia).
    simpl. by rewrite Hwidth.
  - rewrite getCardAt_in_bounds by (done || lia). f_equal.
    rewrite Hrow. unfold at_.
    destruct (Z.ltb_spec col 0); [lia|].
    destruct (Z.ltb_spec (row * (row + 1) / 2 + col) 0) as [Hneg|_].
    { rewrite tri_Z in Hneg; lia. }
    rewrite lookup_take_lt, lookup_drop by lia. do 2 f_equal.
    rewrite tri_Z; lia.
Qed.

(** X5: after a successful [startGame], [getNumRows] and [getNumDraw] return
    the numbers the game was started with, row [row] is [row + 1] wide, and
    [getCardAt(row, col)] is the card at index [row (row + 1) / 2 + col] of
    the dealt deck, for every row in [0, numRows) and column in [0, row]. *)
Theorem startGame_getCardAt rng (deck : list slot) doShuffle numRows numDraw
    (this this' : Model) caller (row col : Z) :
  startGame rng (Some deck) doShuffle numRows numDraw this = (Ok tt, this', caller) ->
  (0 <= row < numRows)%Z -> (0 <= col <= row)%Z ->
  getNumRows this' = numRows /\ getNumDraw this' = numDraw /\
  getRowWidth row this' = Ok (row + 1)%Z /\
  getCardAt row col this' =
    Ok (at_ (dealtFrom rng deck doShuffle) (row * (row + 1) / 2 + col)).
Proof. apply startGame_accessors. Qed.

Lemma startGame_getCardAt_witness :
  getCardAt 2 1 smallGame = Ok (Some (mkCard HEART 5)) /\
  getRowWidth 2 smallGame = Ok 3%Z.
Proof.
  destruct (startGame_getCardAt (fun _ => O) standardDeck false 3 3 constructor smallGame
              (Some standardDeck) 2 1) as (_ & _ & Hw & Hc); [by vm_compute | lia | lia |].
  split; [by rewrite Hc | exact Hw].
Defined.

(** ** The moves as sequences of elementary changes *)

Lemma getCardAt_clearSlot_ne (row1 col1 row2 col2 : Z) (this : Model) (c1 c2 : Card) :
  getCardAt row1 col1 this = Ok (Some c1) ->
  getCardAt row2 col2 this = Ok (Some c2) ->
  (row1, col1) <> (row2, col2) ->
  getCardAt row2 col2 (clearSlot row1 col1 this) = Ok (Some c2).
Proof.
  intros H1 H2 Hne.
  apply getCardAt_Ok in H1 as (Hs & Hr1 & Hc1 & Hat1).
  apply getCardAt_Ok in H2 as (_ & Hr2 & Hc2 & Hat2).
  rewrite getCardAt_in_bounds.
  - rewrite clearSlot_at by lia. rewrite bool_decide_eq_false_2; [by rewrite Hat2|].
    intros [-> ->]. by apply Hne.
  - done.
  - by rewrite clearSlot_len_pyramid.
  - by rewrite clearSlot_len_rowAt.
Qed.

Lemma discardDraw_move (drawIndex : Z) (this this' : Model) :
  discardDraw drawIndex this = (Ok tt, this') -> move this this'.
Proof.
  intros H. pose proof H as Hcases. rewrite discardDraw_cases in Hcases.
  destruct (gamestate this) eqn:Hs; [discriminate|]. clear Hcases.
  apply discardDraw_Ok in H as (Hb & (c & Hat) & ->).
  destruct (stock this) as [|front rest] eqn:Est.
  - change (len [] >? 0)%Z with false. cbv iota. by eapply move_empty.
  - assert ((len (front :: rest) >? 0)%Z = true) as ->
      by (apply Z.gtb_lt; unfold len; simpl length; lia).
    by eapply move_replenish.
Qed.

(** Every successful operation other than a restart is a sequence of at
    most two elementary changes. *)
Lemma exec_moves (op : operation) (this this' : Model) (r : retval) :
  isStart op = false -> exec op this = (Ok r, this') -> rtc move this this'.
Proof.
  intros Hop. destruct op; try discriminate Hop; simpl; unfold void;
    try (intros [= _ <-]; apply rtc_refl).
  - destruct (remove row card this) as [[[]|] s] eqn:E; simpl; [|discriminate].
    intros [= _ <-]. apply remove_Ok in E as (-> & c & Hc).
    apply rtc_once. by eapply move_clear.
  - destruct (removeTwo _ _ _ _ this) as [[[]|] s] eqn:E; simpl; [|discriminate].
    intros [= _ <-]. apply removeTwo_Ok in E as (-> & Hne & c1 & c2 & Hc1 & Hc2).
    apply (rtc_l _ _ (clearSlot row1 card1 this)); [by eapply move_clear|]. apply rtc_once.
    eapply move_clear. by eapply getCardAt_clearSlot_ne.
  - destruct (removeUsingDraw _ _ _ this) as [[[]|] s] eqn:E; simpl; [|discriminate].
    intros [= _ <-]. apply removeUsingDraw_Ok in E as ((c & Hc) & Hdiscard).
    apply (rtc_l _ _ (clearSlot row card this)); [by eapply move_clear|].
    apply rtc_once. by eapply discardDraw_move.
  - destruct (discardDraw drawIndex this) as [[[]|] s] eqn:E; simpl; [|discriminate].
    intros [= _ <-]. apply rtc_once. by eapply discardDraw_move.
Qed.

Lemma play_moves (ops : list operation) (this this' : Model) :
  noRestart ops = true -> play ops this = Some this' -> rtc move this this'.
Proof.
  revert this. induction ops as [|op ops IH]; intros this Hops Hplay; simpl in *.
  - injection Hplay as <-. apply rtc_refl.
  - apply andb_true_iff in Hops as [Hop Hops]. apply negb_true_iff in Hop.
    destruct (exec op this) as [[r|] this1] eqn:E; [|discriminate].
    etrans; [by eapply exec_moves | by apply IH].
Qed.

(** What holds after every successful [startGame] and is kept by the
    elementary changes holds in every game in progress. *)
Lemma inGame_invariant (P : Model -> Prop) :
  (forall rng deck doShuffle numRows numDraw this this' caller,
     startGame rng deck doShuffle numRows numDraw this = (Ok tt, this', caller) -> P this') ->
  (forall this this', P this -> move this this' -> P this') ->
  forall this, inGame this -> P this.
Proof.
  intros Hstart Hmove this
    (rng & deck & doShuffle & numRows & numDraw & this0 & this1 & ops & Hs & Hplay).
  assert (P this1) as H1.
  { simpl in Hs. unfold void in Hs.
    destruct (startGame rng deck doShuffle numRows numDraw this0) as [[[[]|] s] caller] eqn:E;
      [|discriminate].
    simpl in Hs. injection Hs as ->. by eapply Hstart. }
  clear Hs. revert this1 H1 Hplay.
  induction ops as [|op ops IH]; intros this1 H1 Hplay; simpl in Hplay.
  - by injection Hplay as <-.
  - destruct (exec op this1) as [[r|] this2] eqn:E; [|discriminate].
    apply (IH this2); [|done].
    destruct (isStart op) eqn:Hop.
    + destruct op; try discriminate Hop. simpl in E. unfold void in E.
      destruct (startGame rng0 deck0 doShuffle0 numRows0 numDraw0 this1)
        as [[[[]|] s] caller] eqn:E'; [|discriminate].
      simpl in E. injection E as _ ->. by eapply Hstart.
    + apply exec_moves in E; [|done].
      clear -E H1 Hmove. induction E; eauto.
Qed.

(** ** What the moves keep *)

Lemma move_layout (this this' : Model) :
  move this this' ->
  gamestate this' = gamestate this /\ len (pyramid this') = len (pyramid this) /\
  (forall row, len (rowAt this' row) = len (rowAt this row)) /\
  len (draws this') = len (draws this).
Proof.
  destruct 1; simpl.
  - split; [done|]. split; [apply clearSlot_len_pyramid|].
    split; [intros; apply clearSlot_len_rowAt | done].
  - unfold len. simpl. by rewrite length_insert.
  - unfold len. simpl. by rewrite length_insert.
Qed.

Lemma moves_layout (this this' : Model) :
  rtc move this this' ->
  gamestate this' = gamestate this /\ len (pyramid this') = len (pyramid this) /\
  (forall row, len (rowAt this' row) = len (rowAt this row)) /\
  len (draws this') = len (draws this).
Proof.
  induction 1 as [|this this1 this' Hmove _ (IH1 & IH2 & IH3 & IH4)]; [done|].
  apply move_layout in Hmove as (H1 & H2 & H3 & H4).
  split; [congruence|]. split; [congruence|]. split; [|congruence].
  intros row. by rewrite IH3.
Qed.

(** X6: the layout is fixed by the deal: after a successful [startGame] and
    any sequence of successful operations without a restart, [getNumRows]
    and [getNumDraw] still return the numbers the game was started with,
    [getDrawCards] returns that many slots, and every row in
    [0, numRows) still has [row + 1] slots. *)
Theorem play_keeps_layout rng deck doShuffle numRows numDraw (this0 this1 this2 : Model)
    (ops : list operation) :
  exec (OpStartGame rng deck doShuffle numRows numDraw) this0 = (Ok RVoid, this1) ->
  noRestart ops = true -> play ops this1 = Some this2 ->
  getNumRows this2 = numRows /\ getNumDraw this2 = numDraw /\
  (exists cards, getDrawCards this2 = Ok cards /\ len cards = numDraw) /\
  (forall row, (0 <= row < numRows)%Z -> getRowWidth row this2 = Ok (row + 1)%Z).
Proof.
  simpl. unfold void. intros Hstart Hops Hplay.
  destruct (startGame rng deck doShuffle numRows numDraw this0) as [[[[]|] s] caller] eqn:E;
    [|discriminate].
  simpl in Hstart. injection Hstart as ->. destruct deck as [deck|]; [|discriminate].
  apply play_moves in Hplay; [|done].
  apply moves_layout in Hplay as (Hs & Hp & Hr & Hd).
  pose proof (fun row => startGame_accessors rng deck doShuffle numRows numDraw this0 this1
                caller row 0 E) as Hdealt.
  pose proof (startGame_Ok _ _ _ _ _ _ _ _ E) as (_ & Hrows & _).
  destruct (Hdealt 0%Z ltac:(lia) ltac:(lia)) as (Hn1 & Hd1 & _).
  assert (gamestate this1 = STARTED) as Hs1.
  { unfold getNumRows in Hn1. destruct (gamestate this1); [lia | done]. }
  rewrite Hs1 in Hs. unfold getNumRows, getNumDraw in *. rewrite Hs, Hs1 in *.
  split; [congruence|]. split; [congruence|]. split.
  - unfold getDrawCards, checkStarted. rewrite Hs. simpl. eexists. split; [done|].
    rewrite forEach_push. simpl. congruence.
  - intros row Hrow. destruct (Hdealt row Hrow ltac:(lia)) as (_ & _ & Hw & _).
    unfold getRowWidth, checkStarted, throwIf in *. rewrite Hs. rewrite Hs1 in Hw. simpl in *.
    assert (isRowInBounds row this2 = true) as -> by (apply isRowInBounds_true; lia).
    assert (isRowInBounds row this1 = true) as Hb by (apply isRowInBounds_true; lia).
    rewrite Hb in Hw. simpl in *. rewrite Hr. done.
Qed.

Lemma play_keeps_layout_witness :
  getNumRows afterFirstMoves = 3%Z /\ getNumDraw afterFirstMoves = 3%Z.
Proof.
  destruct (play_keeps_layout (fun _ => O) (Some standardDeck) false 3 3 constructor smallGame
              afterFirstMoves firstMoves) as (Hr & Hd & _);
    [vm_compute; reflexivity | reflexivity | vm_compute; reflexivity |].
  split; [exact Hr | exact Hd].
Defined.

Lemma getCardAt_same_layout (row col : Z) (this this' : Model) :
  gamestate this' = gamestate this -> len (pyramid this') = len (pyramid this) ->
  (forall row, len (rowAt this' row) = len (rowAt this row)) ->
  (forall c, getCardAt row col this = Ok c ->
     getCardAt row col this' = Ok (at_ (rowAt this' row) col)) /\
  (forall e, getCardAt row col this = Throw e -> getCardAt row col this' = Throw e).
Proof.
  intros Hs Hp Hr. unfold getCardAt, checkStarted, isCardInBounds, isRowInBounds, throwIf.
  rewrite Hs, Hp, Hr. destruct (gamestate this); simpl; [by split|].
  repeat match goal with |- context [negb ?b] => destruct b; simpl end; by split.
Qed.

Lemma move_slot (this this' : Model) (row col : Z) :
  move this this' -> (0 <= row)%Z -> (0 <= col)%Z ->
  at_ (rowAt this' row) col = None \/ at_ (rowAt this' row) col = at_ (rowAt this row) col.
Proof.
  destruct 1 as [row0 col0 c this Hc| |]; intros Hr Hcol; simpl; [|by right..].
  apply getCardAt_Ok in Hc as (_ & Hr0 & Hc0 & _).
  rewrite clearSlot_at by lia. case_bool_decide; [by left | by right].
Qed.

Lemma moves_slot (this this' : Model) (row col : Z) :
  rtc move this this' -> (0 <= row)%Z -> (0 <= col)%Z ->
  at_ (rowAt this' row) col = None \/ at_ (rowAt this' row) col = at_ (rowAt this row) col.
Proof.
  intros Hmoves Hr Hc. induction Hmoves as [|this this1 this' Hmove _ IH]; [by right|].
  destruct IH as [IH|IH]; [by left|].
  destruct (move_slot this this1 row col Hmove Hr Hc) as [H1|H1]; [left | right]; congruence.
Qed.

Lemma moves_getCardAt (this this' : Model) (row col : Z) :
  rtc move this this' ->
  getCardAt row col this' = getCardAt row col this \/
  (getCardAt row col this' = Ok None /\ exists c, getCardAt row col this = Ok (Some c)).
Proof.
  intros Hplay.
  pose proof (moves_layout this this' Hplay) as (Hs & Hp & Hr & _).
  destruct (getCardAt_same_layout row col this this' Hs Hp Hr) as [Hok Hthrow].
  destruct (getCardAt row col this) as [c|e] eqn:Hget; [|left; by apply Hthrow].
  rewrite (Hok c eq_refl).
  apply getCardAt_Ok in Hget as (_ & Hrow & Hcol & ->).
  destruct (moves_slot this this' row col Hplay) as [Hnone|Hsame]; [lia | lia | |].
  - rewrite Hnone. destruct (at_ (rowAt this row) col) as [c|]; [right | by left].
    split; [done | by exists c].
  - left. by rewrite Hsame.
Qed.

(** X7: the pyramid only ever loses cards. After any sequence of
    successful operations without a restart, [getCardAt] at any position
    either answers as it did before the sequence (the same card, the same
    empty slot, or the same error) or finds empty a slot that held a card;
    no operation puts a card into the pyramid, and an empty slot stays
    empty. *)
Theorem pyramid_only_loses_cards (ops : list operation) (this this' : Model) (row col : Z) :
  noRestart ops = true -> play ops this = Some this' ->
  getCardAt row col this' = getCardAt row col this \/
  (getCardAt row col this' = Ok None /\ exists c, getCardAt row col this = Ok (Some c)).
Proof. intros Hops Hplay. apply moves_getCardAt. by eapply play_moves. Qed.

Lemma pyramid_only_loses_cards_witness :
  getCardAt 2 1 afterFirstMoves = getCardAt 2 1 smallGame.
Proof.
  destruct (pyramid_only_loses_cards firstMoves smallGame afterFirstMoves 2 1 eq_refl)
    as [Hsame|[Hnone _]];
    [vm_compute; reflexivity | exact Hsame | by vm_compute in Hnone].
Defined.

Lemma isCovered_false (row col : Z) (this : Model) :
  isCovered row col this = Ok false <->
  (0 <= row < len (pyramid this))%Z /\ (0 <= col < len (rowAt this row))%Z /\
  (row = len (pyramid this) - 1 \/
   (getCardAt (row + 1) col this = Ok None /\ getCardAt (row + 1) (col + 1) this = Ok None))%Z.
Proof.
  unfold isCovered, throwIf.
  destruct (Z.geb_spec row (len (pyramid this))), (Z.ltb_spec row 0); simpl;
    try (split; [discriminate | lia]).
  destruct (Z.geb_spec col (len (rowAt this row))), (Z.ltb_spec col 0); simpl;
    try (split; [discriminate | lia]).
  destruct (Z.eqb_spec row (len (pyramid this) - 1)) as [Hlast|Hlast].
  { split; [intros _; lia | done]. }
  destruct (getCardAt (row + 1) col this) as [[c|]|e]; simpl.
  - split; [discriminate|]. intros (_ & _ & [?|[? _]]); [lia | discriminate].
  - destruct (getCardAt (row + 1) (col + 1) this) as [[c|]|e]; simpl.
    + split; [discriminate|]. intros (_ & _ & [?|[_ ?]]); [lia | discriminate].
    + split; [intros _; split; [lia|]; split; [lia|]; by right | done].
    + split; [discriminate|]. intros (_ & _ & [?|[_ ?]]); [lia | discriminate].
  - split; [discriminate|]. intros (_ & _ & [?|[? _]]); [lia | discriminate].
Qed.

(** X8: a card that is uncovered stays uncovered. If [isCovered] answers
    [false] for a position, it still answers [false] for it after any
    sequence of successful operations without a restart. *)
Theorem uncovered_stays_uncovered (ops : list operation) (this this' : Model) (row col : Z) :
  noRestart ops = true -> play ops this = Some this' ->
  isCovered row col this = Ok false -> isCovered row col this' = Ok false.
Proof.
  intros Hops Hplay Hcov. apply play_moves in Hplay; [|done].
  pose proof (moves_layout this this' Hplay) as (_ & Hp & Hr & _).
  apply isCovered_false in Hcov as (Hrow & Hcol & Hfree). apply isCovered_false.
  rewrite Hp, Hr. split; [done|]. split; [done|].
  destruct Hfree as [Hlast|[Hleft Hright]]; [by left | right].
  split.
  - by destruct (moves_getCardAt this this' (row + 1) col Hplay) as [->|[-> _]].
  - by destruct (moves_getCardAt this this' (row + 1) (col + 1) Hplay) as [->|[-> _]].
Qed.

Lemma uncovered_stays_uncovered_witness : isCovered 2 0 afterFirstMoves = Ok false.
Proof.
  apply (uncovered_stays_uncovered firstMoves smallGame afterFirstMoves 2 0 eq_refl);
    vm_compute; reflexivity.
Defined.

(** ** The stock and the draw pile *)

Lemma moves_stock (this this' : Model) :
  rtc move this this' ->
  stock this' = drop (length (stock this) - length (stock this')) (stock this).
Proof.
  induction 1 as [this|this this1 this' Hmove _ IH].
  - by rewrite Nat.sub_diag.
  - assert (stock this1 = stock this \/
            exists front, stock this = front :: stock this1) as [Heq|[front Heq]].
    { destruct Hmove as [| d c front rest this _ _ _ Hst |]; simpl;
        [by left | right; exists front; by rewrite Hst | by left]. }
    + by rewrite <- Heq.
    + rewrite IH, Heq. rewrite length_drop. simpl.
      destruct (decide (length (stock this') <= length (stock this1))) as [Hle|Hgt].
      * replace (S (length (stock this1)) -
                 (length (stock this1) - (length (stock this1) - length (stock this'))))
          with (S (length (stock this1) - length (stock this'))) by lia.
        done.
      * pose proof (f_equal length IH) as Hlen. rewrite length_drop in Hlen. lia.
Qed.

(** X9: the stock is never re-ordered or refilled: after any sequence of
    successful operations without a restart the stock is what remains of
    the former stock when its first cards are taken away. *)
Theorem stock_is_suffix (ops : list operation) (this this' : Model) :
  noRestart ops = true -> play ops this = Some this' ->
  stock this' = drop (length (stock this) - length (stock this')) (stock this) /\
  length (stock this') <= length (stock this).
Proof.
  intros Hops Hplay. apply play_moves in Hplay; [|done].
  pose proof (moves_stock this this' Hplay) as Hdrop. split; [done|].
  rewrite Hdrop at 1. rewrite length_drop. lia.
Qed.

Lemma stock_is_suffix_witness : stock afterFirstMoves = drop 2 (stock smallGame).
Proof.
  destruct (stock_is_suffix firstMoves smallGame afterFirstMoves eq_refl) as [Hdrop _];
    [vm_compute; reflexivity|].
  rewrite Hdrop. by vm_compute.
Defined.

Lemma dealtFrom_filled rng (deck : list slot) doShuffle :
  filled deck -> filled (dealtFrom rng deck doShuffle).
Proof.
  intros Hfilled. unfold dealtFrom. destruct doShuffle; [|done].
  by apply shuffle_from_filled.
Qed.

Lemma valid_deck_filled (deck : list slot) : isValidDeck deck = Ok true -> filled deck.
Proof.
  intros Hvalid. destruct (isValidDeck_true deck Hvalid) as (cs & -> & _).
  apply Forall_forall. intros c Hc. apply list_elem_of_fmap in Hc as (c' & -> & _). done.
Qed.

(** In a game in progress the stock has no empty slot, and neither has the
    draw pile as long as the stock holds a card. *)
Lemma inGame_filled (this : Model) :
  inGame this -> filled (stock this) /\ (stock this <> [] -> filled (draws this)).
Proof.
  revert this. apply inGame_invariant.
  - intros rng [deck|] doShuffle numRows numDraw this this' caller Hstart; [|discriminate].
    apply startGame_Ok in Hstart as (Hvalid & _ & _ & _ & _ & ->). simpl.
    pose proof (dealtFrom_filled rng deck doShuffle (valid_deck_filled deck Hvalid)) as Hf.
    split; [by apply Forall_drop | intros _; by apply Forall_take, Forall_drop].
  - intros this this' [Hs Hd] Hmove.
    destruct Hmove as [| d c front rest this _ _ _ Hst | d c this _ _ _ Hst]; simpl.
    + done.
    + rewrite Hst in *. inversion Hs as [|? ? Hfront Hrest]; subst. simpl.
      split; [done|]. intros _. apply Forall_insert; [by apply Hd|].
      by destruct front.
    + split; [done|]. intros Hne. by rewrite Hst in Hne.
Qed.

(** X10: in a game in progress an empty draw slot means that the stock is
    exhausted: as long as the stock holds a card, every draw slot holds one
    too (a discard always finds a replacement). Holes in the draw pile can
    therefore never be filled again. *)
Theorem empty_draw_slot_means_empty_stock (this : Model) (drawIndex : Z) :
  inGame this ->
  (0 <= drawIndex < len (draws this))%Z -> at_ (draws this) drawIndex = None ->
  stock this = [].
Proof.
  intros Hgame Hb Hnone. destruct (inGame_filled this Hgame) as [_ Hdraws].
  destruct (stock this) as [|front rest]; [done|].
  exfalso. specialize (Hdraws ltac:(done)).
  apply (filled_at (draws this) (Z.to_nat drawIndex) Hdraws).
  - unfold len in Hb. lia.
  - by rewrite Z2Nat.id by lia.
Qed.

Lemma empty_draw_slot_means_empty_stock_witness : stock fullGameDiscarded = [].
Proof.
  apply (empty_draw_slot_means_empty_stock fullGameDiscarded 0).
  - exists (fun _ => O), (Some standardDeck), false, 9%Z, 7%Z, constructor, fullGame,
      [OpDiscardDraw 0]. split; vm_compute; reflexivity.
  - by vm_compute.
  - by vm_compute.
Defined.

(** ** No card twice *)

Lemma cardsOf_cards (cs : list Card) : cardsOf (map Some cs) = cs.
Proof. induction cs as [|c cs IH]; [done|]. unfold cardsOf in *. simpl. f_equal. exact IH. Qed.

Lemma cardsOf_app (l k : list slot) : cardsOf (l ++ k) = cardsOf l ++ cardsOf k.
Proof. apply omap_app. Qed.

Lemma cardsOf_insert (l : list slot) (i : nat) (x y : slot) :
  l !! i = Some x ->
  cardsOf l = cardsOf (take i l) ++ cardsOf [x] ++ cardsOf (drop (S i) l) /\
  cardsOf (<[i := y]> l) = cardsOf (take i l) ++ cardsOf [y] ++ cardsOf (drop (S i) l).
Proof.
  intros Hi. split.
  - rewrite <- (take_drop_middle l i x Hi) at 1.
    change (x :: drop (S i) l) with ([x] ++ drop (S i) l). by rewrite !cardsOf_app.
  - rewrite insert_take_drop by by eapply lookup_lt_Some.
    change (y :: drop (S i) l) with ([y] ++ drop (S i) l). by rewrite !cardsOf_app.
Qed.

Lemma cardsOf_clear (l : list slot) (i : nat) : cardsOf (<[i := None]> l) ⊆+ cardsOf l.
Proof.
  destruct (l !! i) as [x|] eqn:Hi.
  - destruct (cardsOf_insert l i x None Hi) as [-> ->].
    change (cardsOf [None]) with (@nil Card). simpl.
    apply submseteq_skips_l, submseteq_inserts_l. done.
  - rewrite list_insert_ge; [done|]. by apply lookup_ge_None.
Qed.

Lemma cardsOf_concat_alter (rows : list (list slot)) (i : nat)
    (f : list slot -> list slot) :
  (forall row, cardsOf (f row) ⊆+ cardsOf row) ->
  cardsOf (concat (alter f i rows)) ⊆+ cardsOf (concat rows).
Proof.
  intros Hf. revert i. induction rows as [|row rows IH]; intros i; [done|].
  destruct i as [|i].
  - change (alter f 0 (row :: rows)) with (f row :: rows). simpl.
    rewrite !cardsOf_app. by apply submseteq_skips_r.
  - change (alter f (S i) (row :: rows)) with (row :: alter f i rows). simpl.
    rewrite !cardsOf_app. by apply submseteq_skips_l.
Qed.

(** An elementary change never brings a card into play. *)
Lemma move_inPlay (this this' : Model) : move this this' -> inPlay this' ⊆+ inPlay this.
Proof.
  destruct 1 as [row col c this _ | d c front rest this _ Hb Hat Hst | d c this _ Hb Hat _];
    unfold inPlay; simpl.
  - apply submseteq_skips_r, cardsOf_concat_alter. intros r. apply cardsOf_clear.
  - apply submseteq_skips_l. apply at_lookup in Hat as [_ Hat].
    destruct (cardsOf_insert (draws this) (Z.to_nat d) (Some c) (at_ (stock this) 0) Hat)
      as [-> ->].
    rewrite Hst. unfold at_. simpl. destruct front as [y|]; simpl; solve_submseteq.
  - apply submseteq_skips_l, submseteq_skips_r, cardsOf_clear.
Qed.

Lemma submseteq_NoDup (l k : list Card) : l ⊆+ k -> NoDup k -> NoDup l.
Proof.
  intros Hsub Hk. apply submseteq_Permutation in Hsub as [k' Hperm].
  rewrite Hperm in Hk. by apply NoDup_app in Hk as [? _].
Qed.

(** X11: no card is in play twice. In a game in progress the cards of the
    pyramid, the draw pile and the stock, taken together, are pairwise
    distinct. *)
Theorem inPlay_NoDup (this : Model) : inGame this -> NoDup (inPlay this).
Proof.
  revert this. apply inGame_invariant.
  - intros rng [deck|] doShuffle numRows numDraw this this' caller Hstart; [|discriminate].
    pose proof (startGame_Ok _ _ _ _ _ _ _ _ Hstart) as (Hvalid & _).
    destruct (isValidDeck_true deck Hvalid) as (cs & -> & _ & Hnodup).
    assert (concat (pyramid this') ++ draws this' ++ stock this' ≡ₚ map Some cs) as Hperm.
    { apply startGame_Ok in Hstart as (_ & _ & _ & _ & _ & ->). simpl.
      rewrite concat_rows, app_assoc, take_take_drop, take_drop.
      unfold dealtFrom. destruct doShuffle; [|done]. by apply shuffle_from_Permutation. }
    unfold inPlay. rewrite <- !cardsOf_app. unfold cardsOf at 1. rewrite Hperm.
    fold (cardsOf (map Some cs)). by rewrite cardsOf_cards.
  - intros this this' Hnodup Hmove. eapply submseteq_NoDup; [by apply move_inPlay | done].
Qed.

Lemma inPlay_NoDup_witness : NoDup (inPlay afterFirstMoves).
Proof.
  apply inPlay_NoDup.
  exists (fun _ => O), (Some standardDeck), false, 3%Z, 3%Z, constructor, smallGame, firstMoves.
  split; vm_compute; reflexivity.
Defined.

(** ** Pair removal *)

Lemma clearSlot_comm (row1 col1 row2 col2 : Z) (this : Model) :
  clearSlot row1 col1 (clearSlot row2 col2 this) =
  clearSlot row2 col2 (clearSlot row1 col1 this).
Proof.
  unfold clearSlot; simpl. f_equal.
  destruct (decide (Z.to_nat row1 = Z.to_nat row2)) as [->|Hrow].
  - rewrite !list_alter_alter_eq. apply list_alter_ext; [|done]. intros r _. simpl.
    destruct (decide (Z.to_nat col1 = Z.to_nat col2)) as [->|Hcol]; [done|].
    by apply list_insert_insert_ne.
  - by apply list_alter_alter_ne.
Qed.

(** [removeTwo] on two in-bounds positions that hold cards, in an engine
    that is started and has the triangular shape. *)
Lemma removeTwo_cases (row1 col1 row2 col2 : Z) (this : Model) (c1 c2 : Card) :
  gamestate this = STARTED -> pyramidShape this = true ->
  (0 <= row1 < len (pyramid this))%Z -> (0 <= col1 <= row1)%Z ->
  (0 <= row2 < len (pyramid this))%Z -> (0 <= col2 <= row2)%Z ->
  at_ (rowAt this row1) col1 = Some c1 -> at_ (rowAt this row2) col2 = Some c2 ->
  removeTwo row1 col1 row2 col2 this =
    if negb (value c1 + value c2 =? 13)%Z then (Throw InvalidMove, this)
    else if uncovered this row1 col1 && uncovered this row2 col2
         then (Ok tt, clearSlot row2 col2 (clearSlot row1 col1 this))
         else (Throw Covered, this).
Proof.
  intros Hs Hshape Hr1 Hc1 Hr2 Hc2 Hat1 Hat2.
  pose proof (rowAt_shape this row1 Hshape Hr1) as Hlen1.
  pose proof (rowAt_shape this row2 Hshape Hr2) as Hlen2.
  assert (removeTwoChecks row1 col1 row2 col2 this =
          if negb (value c1 + value c2 =? 13)%Z then Throw InvalidMove else Ok tt) as Hchecks.
  { unfold removeTwoChecks, throwIf, bindO.
    rewrite (getCardAt_in_bounds row1 col1 this Hs Hr1) by lia.
    rewrite (getCardAt_in_bounds row2 col2 this Hs Hr2) by lia.
    rewrite Hat1, Hat2. unfold checkStarted. rewrite Hs.
    assert (isRowInBounds row1 this = true) as -> by by apply isRowInBounds_true.
    assert (isRowInBounds row2 this = true) as -> by by apply isRowInBounds_true.
    assert (isCardInBounds row1 col1 this = true) as -> by (apply isCardInBounds_true; lia).
    assert (isCardInBounds row2 col2 this = true) as -> by (apply isCardInBounds_true; lia).
    simpl. unfold getValue, removalValue. by destruct (value c1 + value c2 =? 13)%Z. }
  unfold removeTwo. unfold_engine. rewrite Hchecks.
  destruct (value c1 + value c2 =? 13)%Z; simpl; [|reflexivity].
  rewrite (isCovered_shape row1 col1 this Hs Hshape Hr1 Hc1).
  destruct (uncovered this row1 col1); simpl; [|reflexivity].
  rewrite (isCovered_shape row2 col2 this Hs Hshape Hr2 Hc2).
  destruct (uncovered this row2 col2); reflexivity.
Qed.

(** X12: in a game in progress, [removeTwo] on two in-bounds positions
    that hold cards returns normally exactly when the two ranks sum to 13
    and both slots are uncovered; both slots are then empty and every other
    pyramid slot, the draw pile and the stock are as they were. Ranks that
    do not sum to 13 fail with InvalidMove (also when a card is covered),
    and ranks that sum to 13 with a covered card fail with Covered. *)
Theorem removeTwo_cards (row1 col1 row2 col2 : Z) (this : Model) (c1 c2 : Card) :
  inGame this ->
  (0 <= row1 < len (pyramid this))%Z -> (0 <= col1 <= row1)%Z ->
  (0 <= row2 < len (pyramid this))%Z -> (0 <= col2 <= row2)%Z ->
  at_ (rowAt this row1) col1 = Some c1 -> at_ (rowAt this row2) col2 = Some c2 ->
  ((exists this', removeTwo row1 col1 row2 col2 this = (Ok tt, this')) <->
     (value c1 + value c2 = 13)%Z /\
     uncovered this row1 col1 = true /\ uncovered this row2 col2 = true) /\
  (forall this', removeTwo row1 col1 row2 col2 this = (Ok tt, this') ->
     at_ (rowAt this' row1) col1 = None /\ at_ (rowAt this' row2) col2 = None /\
     (forall row col, (0 <= row)%Z -> (0 <= col)%Z ->
        (row, col) <> (row1, col1) -> (row, col) <> (row2, col2) ->
        at_ (rowAt this' row) col = at_ (rowAt this row) col) /\
     draws this' = draws this /\ stock this' = stock this) /\
  ((value c1 + value c2 <> 13)%Z ->
     removeTwo row1 col1 row2 col2 this = (Throw InvalidMove, this)) /\
  ((value c1 + value c2 = 13)%Z ->
     uncovered this row1 col1 && uncovered this row2 col2 = false ->
     removeTwo row1 col1 row2 col2 this = (Throw Covered, this)).
Proof.
  intros Hgame Hr1 Hc1 Hr2 Hc2 Hat1 Hat2.
  destruct (inGame_started this Hgame) as [Hs Hshape].
  pose proof (removeTwo_cases row1 col1 row2 col2 this c1 c2 Hs Hshape Hr1 Hc1 Hr2 Hc2
                Hat1 Hat2) as Hcases.
  pose proof (rowAt_shape this row1 Hshape Hr1) as Hlen1.
  pose proof (rowAt_shape this row2 Hshape Hr2) as Hlen2.
  rewrite Hcases. destruct (Z.eqb_spec (value c1 + value c2) 13) as [Hsum|Hsum]; simpl.
  - destruct (uncovered this row1 col1), (uncovered this row2 col2); simpl;
      (split; [split; [intros [this' H]; (done || discriminate)
                      | intros (_ & ? & ?); (discriminate || by eexists)]|]);
      (split; [|split; [done | intros _ ?; (done || discriminate)]]);
      intros this' Hok; try discriminate.
    injection Hok as <-.
    assert (forall row col, (0 <= row)%Z -> (0 <= col)%Z ->
      at_ (rowAt (clearSlot row2 col2 (clearSlot row1 col1 this)) row) col =
        if bool_decide (row = row2 /\ col = col2) then None
        else if bool_decide (row = row1 /\ col = col1) then None
        else at_ (rowAt this row) col) as Hslot.
    { intros row col Hr Hc. rewrite clearSlot_at; [|lia| |lia|lia].
      - case_bool_decide; [done|]. by rewrite clearSlot_at by lia.
      - rewrite clearSlot_len_rowAt. lia. }
    split; [|split; [|split; [|done]]].
    + rewrite Hslot by lia. repeat case_bool_decide; try done; exfalso; intuition congruence.
    + rewrite Hslot by lia. repeat case_bool_decide; try done; exfalso; intuition congruence.
    + intros row col Hr Hc Hne1 Hne2. rewrite Hslot by lia.
      repeat case_bool_decide; try done; exfalso; intuition congruence.
  - split; [split; [intros [this' H]; discriminate | intros (? & _); done]|].
    split; [intros this' H; discriminate|]. split; [done | intros ?; done].
Qed.

Lemma removeTwo_cards_witness :
  removeTwo 2 0 2 1 smallGame = (Throw InvalidMove, smallGame).
Proof.
  assert (inGame smallGame) as Hsmall.
  { exists (fun _ => O), (Some standardDeck), false, 3%Z, 3%Z, constructor, smallGame, [].
    split; vm_compute; reflexivity. }
  apply (proj1 (proj2 (proj2 (removeTwo_cards 2 0 2 1 smallGame (mkCard HEART 4)
           (mkCard HEART 5) Hsmall ltac:(by vm_compute) ltac:(lia) ltac:(by vm_compute)
           ltac:(lia) eq_refl eq_refl)))).
  simpl. lia.
Defined.

Lemma removeTwoChecks_sym (row1 col1 row2 col2 : Z) (this : Model) :
  removeTwoChecks row1 col1 row2 col2 this = removeTwoChecks row2 col2 row1 col1 this.
Proof.
  unfold removeTwoChecks, getCardAt, checkStarted, throwIf, bindO.
  destruct (gamestate this); [done|].
  destruct (isRowInBounds row1 this), (isRowInBounds row2 this); simpl; try done.
  destruct (isCardInBounds row1 col1 this), (isCardInBounds row2 col2 this); simpl; try done.
  destruct (at_ (rowAt this row1) col1) as [c1|], (at_ (rowAt this row2) col2) as [c2|];
    simpl; try done.
  by rewrite Z.add_comm.
Qed.

Lemma removeTwoChecks_Ok (row1 col1 row2 col2 : Z) (this : Model) :
  removeTwoChecks row1 col1 row2 col2 this = Ok tt ->
  exists c1 c2 : Card,
    getCardAt row1 col1 this = Ok (Some c1) /\ getCardAt row2 col2 this = Ok (Some c2) /\
    (value c1 + value c2 = 13)%Z.
Proof.
  unfold removeTwoChecks, throwIf, bindO. intros H.
  destruct (checkStarted this); [|discriminate].
  destruct (_ || _); [discriminate|].
  destruct (_ || _); [discriminate|].
  destruct (getCardAt row1 col1 this) as [[c1|]|]; simpl in H; try discriminate.
  destruct (getCardAt row2 col2 this) as [[c2|]|]; simpl in H; try discriminate.
  unfold getValue, removalValue in H.
  destruct (Z.eqb_spec (value c1 + value c2) 13); [|discriminate].
  by exists c1, c2.
Qed.

(** X13: in a game in progress [removeTwo] does not depend on the order in
    which its two positions are given: with the positions exchanged it has
    the same outcome (the same kind of error, or success) and leaves the
    same engine. *)
Theorem removeTwo_symmetric (row1 col1 row2 col2 : Z) (this : Model) :
  inGame this ->
  removeTwo row1 col1 row2 col2 this = removeTwo row2 col2 row1 col1 this.
Proof.
  intros Hgame. destruct (inGame_started this Hgame) as [Hs Hshape].
  destruct (removeTwoChecks row1 col1 row2 col2 this) as [[]|e] eqn:E.
  - apply removeTwoChecks_Ok in E as (c1 & c2 & H1 & H2 & Hsum).
    apply getCardAt_Ok in H1 as (_ & Hr1 & Hc1 & Hat1).
    apply getCardAt_Ok in H2 as (_ & Hr2 & Hc2 & Hat2).
    rewrite (rowAt_shape this row1 Hshape Hr1) in Hc1.
    rewrite (rowAt_shape this row2 Hshape Hr2) in Hc2.
    rewrite (removeTwo_cases row1 col1 row2 col2 this c1 c2) by (done || lia).
    rewrite (removeTwo_cases row2 col2 row1 col1 this c2 c1) by (done || lia).
    by rewrite (Z.add_comm (value c2)), (andb_comm (uncovered this row2 col2)), clearSlot_comm.
  - unfold removeTwo. unfold_engine. by rewrite <- (removeTwoChecks_sym row1 col1 row2 col2), E.
Qed.

Lemma removeTwo_symmetric_witness :
  removeTwo 2 0 1 1 smallGame = removeTwo 1 1 2 0 smallGame.
Proof.
  apply removeTwo_symmetric.
  exists (fun _ => O), (Some standardDeck), false, 3%Z, 3%Z, constructor, smallGame, [].
  split; vm_compute; reflexivity.
Defined.

(** ** Removal with a draw card *)

Lemma removeUsingDraw_cases (drawIndex row col : Z) (this : Model) (c d : Card) :
  gamestate this = STARTED -> pyramidShape this = true ->
  (0 <= row < len (pyramid this))%Z -> (0 <= col <= row)%Z ->
  (0 <= drawIndex < len (draws this))%Z ->
  at_ (rowAt this row) col = Some c -> at_ (draws this) drawIndex = Some d ->
  removeUsingDraw drawIndex row col this =
    if negb (value c + value d =? 13)%Z then (Throw InvalidMove, this)
    else if uncovered this row col
         then (Ok tt, if (len (stock this) >? 0)%Z
                      then replenish drawIndex (clearSlot row col this)
                      else emptyDraw drawIndex (clearSlot row col this))
         else (Throw Covered, this).
Proof.
  intros Hs Hshape Hr Hc Hd Hat Hdraw.
  pose proof (rowAt_shape this row Hshape Hr) as Hlen.
  unfold removeUsingDraw. unfold_engine.
  unfold checkStarted at 1. rewrite Hs.
  assert (isRowInBounds row this = true) as -> by by apply isRowInBounds_true.
  assert (isCardInBounds row col this = true) as -> by (apply isCardInBounds_true; lia).
  assert (((drawIndex >=? len (draws this)) || (drawIndex <? 0))%Z = false) as ->
    by (apply orb_false_iff; lia).
  rewrite (getCardAt_in_bounds row col this Hs Hr) by lia.
  rewrite Hat, Hdraw. simpl. unfold getValue, removalValue.
  destruct (value c + value d =? 13)%Z; simpl; [|reflexivity].
  rewrite (isCovered_shape row col this Hs Hshape Hr Hc).
  destruct (uncovered this row col); simpl; [|reflexivity].
  rewrite discardDraw_cases. simpl. rewrite Hs, Hdraw.
  assert (((drawIndex <? 0) || (drawIndex >=? len (draws this)))%Z = false) as ->
    by (apply orb_false_iff; lia).
  simpl. by destruct (len (stock this) >? 0)%Z.
Qed.

(** X14: in a game in progress, [removeUsingDraw] on an in-bounds pyramid
    position and an in-bounds draw slot that both hold cards returns
    normally exactly when the two ranks sum to 13 and the pyramid slot is
    uncovered. The pyramid slot is then empty, the draw slot holds the
    former front card of the stock (or is empty when the stock was empty),
    the stock has lost its front card, and every other pyramid slot and
    draw slot is as it was. Ranks that do not sum to 13 fail with
    InvalidMove, and a covered pyramid card whose rank fits fails with
    Covered. *)
Theorem removeUsingDraw_cards (drawIndex row col : Z) (this : Model) (c d : Card) :
  inGame this ->
  (0 <= row < len (pyramid this))%Z -> (0 <= col <= row)%Z ->
  (0 <= drawIndex < len (draws this))%Z ->
  at_ (rowAt this row) col = Some c -> at_ (draws this) drawIndex = Some d ->
  ((exists this', removeUsingDraw drawIndex row col this = (Ok tt, this')) <->
     (value c + value d = 13)%Z /\ uncovered this row col = true) /\
  (forall this', removeUsingDraw drawIndex row col this = (Ok tt, this') ->
     at_ (rowAt this' row) col = None /\
     (forall row' col', (0 <= row')%Z -> (0 <= col')%Z -> (row', col') <> (row, col) ->
        at_ (rowAt this' row') col' = at_ (rowAt this row') col') /\
     at_ (draws this') drawIndex = at_ (stock this) 0 /\
     (forall j, (0 <= j)%Z -> j <> drawIndex -> at_ (draws this') j = at_ (draws this) j) /\
     len (draws this') = len (draws this) /\
     stock this' = tail (stock this)) /\
  ((value c + value d <> 13)%Z ->
     removeUsingDraw drawIndex row col this = (Throw InvalidMove, this)) /\
  ((value c + value d = 13)%Z -> uncovered this row col = false ->
     removeUsingDraw drawIndex row col this = (Throw Covered, this)).
Proof.
  intros Hgame Hr Hc Hd Hat Hdraw.
  destruct (inGame_started this Hgame) as [Hs Hshape].
  pose proof (rowAt_shape this row Hshape Hr) as Hlen.
  rewrite (removeUsingDraw_cases drawIndex row col this c d Hs Hshape Hr Hc Hd Hat Hdraw).
  destruct (Z.eqb_spec (value c + value d) 13) as [Hsum|Hsum]; simpl.
  - destruct (uncovered this row col); simpl.
    + split; [split; [done | intros _; by eexists]|].
      split; [|split; [done | intros _ ?; discriminate]].
      intros this' [= <-].
      assert (forall s', pyramid s' = pyramid (clearSlot row col this) ->
        forall row' col', (0 <= row')%Z -> (0 <= col')%Z ->
        at_ (rowAt s' row') col' =
          if bool_decide (row' = row /\ col' = col) then None
          else at_ (rowAt this row') col') as Hslot.
      { intros s' Hp row' col' Hr' Hc'. rewrite <- (clearSlot_at row col row' col' this) by lia.
        unfold rowAt. by rewrite Hp. }
      destruct (stock this) as [|front rest] eqn:Est.
      * change (len [] >? 0)%Z with false. cbv iota.
        specialize (Hslot (emptyDraw drawIndex (clearSlot row col this)) eq_refl).
        unfold len. simpl draws. simpl stock.
        rewrite length_insert, at_insert_eq by done.
        split; [rewrite Hslot by lia; by rewrite bool_decide_eq_true_2|].
        split; [intros row' col' Hr' Hc' Hne; rewrite Hslot by lia;
                rewrite bool_decide_eq_false_2; [done | intros [-> ->]; by apply Hne]|].
        split; [done|]. split; [|done]. intros j Hj Hne. apply at_insert_ne; lia.
      * assert ((len (front :: rest) >? 0)%Z = true) as ->
          by (apply Z.gtb_lt; unfold len; simpl length; lia).
        specialize (Hslot (replenish drawIndex (clearSlot row col this)) eq_refl).
        unfold len. simpl draws. simpl stock. rewrite length_insert, at_insert_eq by done.
        split; [rewrite Hslot by lia; by rewrite bool_decide_eq_true_2|].
        split; [intros row' col' Hr' Hc' Hne; rewrite Hslot by lia;
                rewrite bool_decide_eq_false_2; [done | intros [-> ->]; by apply Hne]|].
        split; [by rewrite Est|]. split; [|by rewrite Est].
        intros j Hj Hne. apply at_insert_ne; lia.
    + split; [split; [intros [this' H]; discriminate | intros [_ ?]; discriminate]|].
      split; [intros this' H; discriminate | done].
  - split; [split; [intros [this' H]; discriminate | intros [? _]; done]|].
    split; [intros this' H; discriminate|]. split; [done | intros ?; done].
Qed.

Lemma removeUsingDraw_cards_witness :
  exists this', removeUsingDraw 0 2 2 smallGame = (Ok tt, this').
Proof.
  assert (inGame smallGame) as Hsmall.
  { exists (fun _ => O), (Some standardDeck), false, 3%Z, 3%Z, constructor, smallGame, [].
    split; vm_compute; reflexivity. }
  apply (proj1 (removeUsingDraw_cards 0 2 2 smallGame (mkCard HEART 6) (mkCard HEART 7)
           Hsmall ltac:(by vm_compute) ltac:(lia) ltac:(by vm_compute) eq_refl eq_refl)).
  split; reflexivity.
Defined.

(** ** Reading the pyramid *)

(** X15: in a game in progress [getCardAt(row, col)] answers exactly for
    the rows in [0, getNumRows()) and the columns in [0, row], and fails
    with OutOfBounds everywhere else; [getRowWidth(row)] is [row + 1] for
    the same rows and fails with OutOfBounds for every other one. *)
Theorem getCardAt_bounds (row col : Z) (this : Model) :
  inGame this ->
  getCardAt row col this =
    (if ((0 <=? row) && (row <? getNumRows this) && (0 <=? col) && (col <=? row))%Z
     then Ok (at_ (rowAt this row) col) else Throw OutOfBounds) /\
  getRowWidth row this =
    (if ((0 <=? row) && (row <? getNumRows this))%Z then Ok (row + 1)%Z
     else Throw OutOfBounds).
Proof.
  intros Hgame. destruct (inGame_started this Hgame) as [Hs Hshape].
  unfold getCardAt, getRowWidth, getNumRows, checkStarted, throwIf. rewrite Hs. simpl.
  destruct (isRowInBounds row this) eqn:Hrow; simpl.
  - apply isRowInBounds_true in Hrow. pose proof (rowAt_shape this row Hshape Hrow) as Hlen.
    assert (((0 <=? row) && (row <? len (pyramid this)))%Z = true) as ->
      by (apply andb_true_iff; lia).
    rewrite Hlen. split; [|done]. simpl.
    destruct (isCardInBounds row col this) eqn:Hcard; simpl.
    + apply isCardInBounds_true in Hcard.
      assert (((0 <=? col) && (col <=? row))%Z = true) as -> by (apply andb_true_iff; lia).
      done.
    + assert (((0 <=? col) && (col <=? row))%Z = false) as ->; [|done].
      apply not_true_is_false. intros Hin. apply andb_true_iff in Hin.
      assert (isCardInBounds row col this = true) by (apply isCardInBounds_true; lia).
      congruence.
  - assert (((0 <=? row) && (row <? len (pyramid this)))%Z = false) as ->; [|done].
    apply not_true_is_false. intros Hin. apply andb_true_iff in Hin.
    assert (isRowInBounds row this = true) by (apply isRowInBounds_true; lia).
    congruence.
Qed.

Lemma getCardAt_bounds_witness :
  getCardAt 1 2 afterFirstMoves = Throw OutOfBounds /\
  getRowWidth 3 afterFirstMoves = Throw OutOfBounds.
Proof.
  assert (inGame afterFirstMoves) as Hgame.
  { exists (fun _ => O), (Some standardDeck), false, 3%Z, 3%Z, constructor, smallGame,
      firstMoves. split; vm_compute; reflexivity. }
  split.
  - by rewrite (proj1 (getCardAt_bounds 1 2 afterFirstMoves Hgame)).
  - by rewrite (proj2 (getCardAt_bounds 3 0 afterFirstMoves Hgame)).
Defined.

(** A loop that only appends to its accumulator. *)
Lemma forM_collect {A B} (l : list A) (body : A -> list B -> outcome (list B))
    (found : A -> list B) :
  (forall x acc, x ∈ l -> body x acc = Ok (acc ++ found x)) ->
  forall acc, forM l body acc = Ok (acc ++ concat (map found l)).
Proof.
  induction l as [|x l IH]; intros Hbody acc; simpl.
  - by rewrite app_nil_r.
  - rewrite Hbody by by left. simpl. rewrite IH.
    + by rewrite app_assoc.
    + intros y acc' Hy. apply Hbody. by right.
Qed.

Lemma elem_of_concat {A} (x : A) (ls : list (list A)) :
  x ∈ concat ls <-> exists l, x ∈ l /\ l ∈ ls.
Proof.
  induction ls as [|l0 ls IH]; simpl.
  - split; [intros H; by apply elem_of_nil in H | intros (l & _ & H); by apply elem_of_nil in H].
  - rewrite elem_of_app, IH. split.
    + intros [H|(l & Hx & Hl)]; [exists l0; split; [done | by left]|].
      exists l. split; [done | by right].
    + intros (l & Hx & Hl). apply elem_of_cons in Hl as [->|Hl]; [by left | right].
      by exists l.
Qed.

Lemma elem_of_range (i : nat) (n : Z) : i ∈ range n <-> (Z.of_nat i < n)%Z.
Proof. unfold range. rewrite elem_of_seq. lia. Qed.

(** [getUncovered] in an engine that is started and has the triangular
    shape: no read fails, and the cards found are those of the non-empty
    uncovered slots. *)
Lemma getUncovered_shape (this : Model) :
  gamestate this = STARTED -> pyramidShape this = true ->
  exists cards, getUncovered this = Ok cards /\
    forall c, c ∈ cards <->
      exists row col, (0 <= row < len (pyramid this))%Z /\ (0 <= col <= row)%Z /\
        at_ (rowAt this row) col = Some c /\ uncovered this row col = true.
Proof.
  intros Hs Hshape.
  pose (cell := fun (row col : nat) =>
    match at_ (rowAt this (Z.of_nat row)) (Z.of_nat col) with
    | Some c => if uncovered this (Z.of_nat row) (Z.of_nat col) then [c] else []
    | None => []
    end).
  pose (inRow := fun row : nat =>
    concat (map (cell row) (range (len (rowAt this (Z.of_nat row)))))).
  assert (getUncovered this = Ok (concat (map inRow (range (len (pyramid this)))))) as Hget.
  { unfold getUncovered. rewrite (forM_collect _ _ inRow); [done|].
    intros row acc Hrow. apply elem_of_range in Hrow.
    apply forM_collect. intros col acc' Hcol. apply elem_of_range in Hcol.
    rewrite rowAt_shape in Hcol by (done || lia).
    rewrite getCardAt_in_bounds by (rewrite ?rowAt_shape; (done || lia)). simpl.
    unfold cell. destruct (at_ _ _) as [c|]; [|by rewrite app_nil_r].
    rewrite isCovered_shape by (done || lia). simpl.
    destruct (uncovered this _ _); simpl; [done | by rewrite app_nil_r]. }
  eexists. split; [exact Hget|]. intros c.
  rewrite elem_of_concat. split.
  - intros (found & Hc & Hfound). apply list_elem_of_fmap in Hfound as (row & -> & Hrow).
    apply elem_of_range in Hrow. unfold inRow in Hc. apply elem_of_concat in Hc
      as (found & Hc & Hfound). apply list_elem_of_fmap in Hfound as (col & -> & Hcol).
    apply elem_of_range in Hcol. rewrite rowAt_shape in Hcol by (done || lia).
    exists (Z.of_nat row), (Z.of_nat col). unfold cell in Hc.
    destruct (at_ _ _) as [c'|] eqn:Hat; [|by apply elem_of_nil in Hc].
    destruct (uncovered this _ _) eqn:Hun; [|by apply elem_of_nil in Hc].
    apply list_elem_of_singleton in Hc as ->. split; [lia|]. split; [lia | done].
  - intros (row & col & Hr & Hc & Hat & Hun).
    exists (inRow (Z.to_nat row)). split.
    + unfold inRow. apply elem_of_concat. exists (cell (Z.to_nat row) (Z.to_nat col)).
      split.
      * unfold cell. rewrite !Z2Nat.id by lia. rewrite Hat, Hun. by left.
      * apply list_elem_of_fmap. exists (Z.to_nat col). split; [done|].
        apply elem_of_range. rewrite !Z2Nat.id by lia.
        rewrite rowAt_shape by (done || lia). lia.
    + apply list_elem_of_fmap. exists (Z.to_nat row). split; [done|].
      apply elem_of_range. lia.
Qed.

Lemma getUncovered_inGame (this : Model) :
  inGame this ->
  exists cards, getUncovered this = Ok cards /\
    forall c, c ∈ cards <->
      exists row col,
        getCardAt row col this = Ok (Some c) /\ isCovered row col this = Ok false.
Proof.
  intros Hgame. destruct (inGame_started this Hgame) as [Hs Hshape].
  destruct (getUncovered_shape this Hs Hshape) as (cards & Hget & Hcards).
  exists cards. split; [done|]. intros c. rewrite Hcards. split.
  - intros (row & col & Hr & Hc & Hat & Hun). exists row, col.
    rewrite getCardAt_in_bounds by (rewrite ?rowAt_shape; (done || lia)).
    rewrite isCovered_shape by (done || lia). by rewrite Hat, Hun.
  - intros (row & col & Hget' & Hcov). exists row, col.
    apply getCardAt_Ok in Hget' as (_ & Hr & Hc & Hat).
    rewrite rowAt_shape in Hc by done.
    rewrite isCovered_shape in Hcov by (done || lia).
    split; [done|]. split; [lia|]. split; [done|].
    injection Hcov as Hcov. by apply negb_false_iff in Hcov.
Qed.

(** X16: in a game in progress [getUncovered] reads the whole pyramid
    without an error and returns exactly the cards that are in play in the
    pyramid and uncovered: a card is in the result if and only if some
    position holds it and [isCovered] answers [false] there. *)
Theorem getUncovered_cards (this : Model) :
  inGame this ->
  exists cards, getUncovered this = Ok cards /\
    forall c, c ∈ cards <->
      exists row col,
        getCardAt row col this = Ok (Some c) /\ isCovered row col this = Ok false.
Proof. apply getUncovered_inGame. Qed.

Lemma getUncovered_cards_witness :
  exists cards, getUncovered smallGame = Ok cards /\
    (mkCard HEART 5 ∈ cards) /\ ~ (mkCard HEART 2 ∈ cards).
Proof.
  destruct (getUncovered_cards smallGame) as (cards & Hget & Hcards).
  { exists (fun _ => O), (Some standardDeck), false, 3%Z, 3%Z, constructor, smallGame, [].
    split; vm_compute; reflexivity. }
  exists cards. split; [exact Hget|]. split.
  - apply Hcards. exists 2%Z, 1%Z. split; by vm_compute.
  - assert (getUncovered smallGame
            = Ok [mkCard HEART 4; mkCard HEART 5; mkCard HEART 6]) as Heq by by vm_compute.
    rewrite Heq in Hget. injection Hget as <-.
    intros Hin. repeat (apply elem_of_cons in Hin as [Hin|Hin]; [discriminate|]).
    by apply elem_of_nil in Hin.
Defined.

(** ** The moves that are left *)

Lemma canBeRemoved_iff (cards : list Card) :
  canBeRemoved cards = true <-> exists c, c ∈ cards /\ value c = 13%Z.
Proof.
  unfold canBeRemoved. rewrite existsb_exists. split.
  - intros (i & _ & Hi). destruct (cards !! i) as [c|] eqn:Hc; [|discriminate].
    exists c. split; [by eapply list_elem_of_lookup_2 | by apply Z.eqb_eq].
  - intros (c & Hc & Hv). apply list_elem_of_lookup_1 in Hc as [i Hi]. exists i. split.
    + apply list_elem_of_In, elem_of_range. apply lookup_lt_Some in Hi. unfold len. lia.
    + rewrite Hi. by apply Z.eqb_eq.
Qed.

Lemma canAddToRemovalValue_iff (cards : list Card) :
  canAddToRemovalValue cards = true <->
  exists c1 c2, c1 ∈ cards /\ c2 ∈ cards /\ (value c1 + value c2 = 13)%Z.
Proof.
  unfold canAddToRemovalValue. rewrite existsb_exists. split.
  - intros (i & _ & Hi). apply existsb_exists in Hi as (j & _ & Hij).
    apply andb_true_iff in Hij as [_ Hij].
    destruct (cards !! i) as [c1|] eqn:H1; [|discriminate].
    destruct (cards !! j) as [c2|] eqn:H2; [|discriminate].
    exists c1, c2. split; [by eapply list_elem_of_lookup_2|].
    split; [by eapply list_elem_of_lookup_2 | by apply Z.eqb_eq].
  - intros (c1 & c2 & H1 & H2 & Hsum).
    apply list_elem_of_lookup_1 in H1 as [i Hi]. apply list_elem_of_lookup_1 in H2 as [j Hj].
    assert (forall k c, cards !! k = Some c -> In k (range (len cards))) as Hin.
    { intros k c Hk. apply list_elem_of_In, elem_of_range.
      apply lookup_lt_Some in Hk. unfold len. lia. }
    exists i. split; [by eapply Hin|]. apply existsb_exists. exists j.
    split; [by eapply Hin|]. rewrite Hi, Hj. apply andb_true_iff. split.
    + apply negb_true_iff, Nat.eqb_neq. intros ->. assert (c1 = c2) as -> by congruence. lia.
    + by apply Z.eqb_eq.
Qed.

Lemma remove_Ok_iff (row col : Z) (this : Model) :
  (exists this', remove row col this = (Ok tt, this')) <->
  exists c : Card, getCardAt row col this = Ok (Some c) /\ value c = 13%Z /\
    isCovered row col this = Ok false.
Proof.
  unfold remove. unfold_engine. split.
  - intros [this' H].
    destruct (checkStarted this); [|discriminate].
    destruct (negb (isRowInBounds row this)); [discriminate|].
    destruct (negb (isCardInBounds row col this)); [discriminate|].
    destruct (getCardAt row col this) as [[c|]|]; simpl in H; try discriminate.
    unfold getValue, removalValue in H.
    destruct (Z.eqb_spec (value c) 13); simpl in H; [|discriminate].
    destruct (isCovered row col this) as [[]|]; try discriminate.
    by exists c.
  - intros (c & Hget & Hv & Hcov). rewrite Hget, Hcov. simpl.
    apply getCardAt_Ok in Hget as (Hs & Hr & Hc & _).
    unfold checkStarted. rewrite Hs.
    assert (isRowInBounds row this = true) as -> by by apply isRowInBounds_true.
    assert (isCardInBounds row col this = true) as -> by by apply isCardInBounds_true.
    simpl. unfold getValue, removalValue. rewrite Hv. simpl. by eexists.
Qed.

Lemma removeTwo_Ok_iff (row1 col1 row2 col2 : Z) (this : Model) :
  (exists this', removeTwo row1 col1 row2 col2 this = (Ok tt, this')) <->
  exists c1 c2 : Card,
    getCardAt row1 col1 this = Ok (Some c1) /\ getCardAt row2 col2 this = Ok (Some c2) /\
    (value c1 + value c2 = 13)%Z /\
    isCovered row1 col1 this = Ok false /\ isCovered row2 col2 this = Ok false.
Proof.
  split.
  - intros [this' H]. unfold removeTwo in H. unfold_engine.
    destruct (removeTwoChecks row1 col1 row2 col2 this) as [[]|] eqn:E; [|discriminate].
    apply removeTwoChecks_Ok in E as (c1 & c2 & H1 & H2 & Hsum).
    destruct (isCovered row1 col1 this) as [[]|]; try discriminate.
    destruct (isCovered row2 col2 this) as [[]|]; try discriminate.
    by exists c1, c2.
  - intros (c1 & c2 & H1 & H2 & Hsum & Hcov1 & Hcov2).
    unfold removeTwo, removeTwoChecks. unfold_engine. rewrite H1, H2, Hcov1. simpl.
    rewrite Hcov2. simpl.
    apply getCardAt_Ok in H1 as (Hs & Hr1 & Hc1 & _).
    apply getCardAt_Ok in H2 as (_ & Hr2 & Hc2 & _).
    unfold checkStarted. rewrite Hs.
    assert (isRowInBounds row1 this = true) as -> by by apply isRowInBounds_true.
    assert (isRowInBounds row2 this = true) as -> by by apply isRowInBounds_true.
    assert (isCardInBounds row1 col1 this = true) as -> by by apply isCardInBounds_true.
    assert (isCardInBounds row2 col2 this = true) as -> by by apply isCardInBounds_true.
    simpl. unfold getValue, removalValue.
    destruct (Z.eqb_spec (value c1 + value c2) 13); [|done]. simpl. by eexists.
Qed.

(** X17: the two tests that [isGameOver] runs on the uncovered cards decide
    which pyramid moves are left. In a game in progress, [canBeRemoved] on
    the result of [getUncovered] is [true] exactly when some
    [remove(row, col)] would succeed, and [canAddToRemovalValue] on it is
    [true] exactly when some [removeTwo] would succeed. *)
Theorem uncovered_tests_decide_moves (this : Model) :
  inGame this ->
  exists cards, getUncovered this = Ok cards /\
    (canBeRemoved cards = true <->
       exists row col this', remove row col this = (Ok tt, this')) /\
    (canAddToRemovalValue cards = true <->
       exists row1 col1 row2 col2 this',
         removeTwo row1 col1 row2 col2 this = (Ok tt, this')).
Proof.
  intros Hgame. destruct (getUncovered_inGame this Hgame) as (cards & Hget & Hcards).
  exists cards. split; [done|]. split.
  - rewrite canBeRemoved_iff. split.
    + intros (c & Hc & Hv). apply Hcards in Hc as (row & col & Hcard & Hcov).
      exists row, col. apply remove_Ok_iff. by exists c.
    + intros (row & col & Hok). apply remove_Ok_iff in Hok as (c & Hcard & Hv & Hcov).
      exists c. split; [|done]. apply Hcards. by exists row, col.
  - rewrite canAddToRemovalValue_iff. split.
    + intros (c1 & c2 & H1 & H2 & Hsum).
      apply Hcards in H1 as (row1 & col1 & Hcard1 & Hcov1).
      apply Hcards in H2 as (row2 & col2 & Hcard2 & Hcov2).
      exists row1, col1, row2, col2. apply removeTwo_Ok_iff. by exists c1, c2.
    + intros (row1 & col1 & row2 & col2 & Hok).
      apply removeTwo_Ok_iff in Hok as (c1 & c2 & H1 & H2 & Hsum & Hcov1 & Hcov2).
      exists c1, c2. split; [apply Hcards; by exists row1, col1|].
      split; [apply Hcards; by exists row2, col2 | done].
Qed.

Lemma uncovered_tests_decide_moves_witness :
  exists row col this', remove row col kingGame = (Ok tt, this').
Proof.
  destruct (uncovered_tests_decide_moves kingGame) as (cards & Hget & Hone & _).
  { exists (fun _ => O), (Some (reverse standardDeck)), false, 1%Z, 3%Z, constructor,
      kingGame, []. split; vm_compute; reflexivity. }
  apply Hone.
  assert (getUncovered kingGame = Ok [mkCard DIAMOND 13]) as Heq by by vm_compute.
  rewrite Heq in Hget. injection Hget as <-. reflexivity.
Defined.

(** ** Decks *)

(** X18: [getDeck] builds the standard deck: 52 pairwise distinct cards,
    and a card is among them exactly when its rank lies between 1 and 13,
    whatever its suit; [isValidDeck] accepts it. *)
Theorem getDeck_standard :
  length getDeck = 52 /\ NoDup getDeck /\
  (forall c : Card, c ∈ getDeck <-> (1 <= value c <= 13)%Z) /\
  isValidDeck (map Some getDeck) = Ok true.
Proof.
  split; [reflexivity|]. split; [apply getDeck_NoDup|]. split; [|by vm_compute].
  intros c. split; [|intros Hv; by apply list_elem_of_In, getDeck_complete].
  revert c. apply Forall_forall. apply (bool_decide_unpack _). by vm_compute.
Qed.

Lemma cardsOf_filled (deck : list slot) : filled deck -> map Some (cardsOf deck) = deck.
Proof.
  induction 1 as [|[c|] deck Hc _ IH]; [done | | done].
  unfold cardsOf in *. simpl. f_equal. exact IH.
Qed.

(** X19: whether [isValidDeck] accepts a deck of cards does not depend on
    the order of the cards; in particular a deck that it accepts is still
    accepted after [shuffle]. *)
Theorem isValidDeck_order (cs cs' : list Card) rng (deck : list slot) :
  (cs ≡ₚ cs' -> isValidDeck (map Some cs) = isValidDeck (map Some cs')) /\
  (isValidDeck deck = Ok true -> isValidDeck (shuffle rng deck) = Ok true).
Proof.
  assert (forall l l' : list Card, l ≡ₚ l' ->
            isValidDeck (map Some l) = isValidDeck (map Some l')) as Hperm.
  { intros l l' Hll'.
    destruct (isValidDeck_cards l) as (b & -> & Hb).
    destruct (isValidDeck_cards l') as (b' & -> & Hb').
    f_equal. rewrite <- Hll' in Hb'.
    destruct b, b'; try done.
    - symmetry. apply Hb'. by apply Hb.
    - apply Hb. by apply Hb'. }
  split; [apply Hperm|]. intros Hvalid.
  pose proof (valid_deck_filled deck Hvalid) as Hfilled.
  assert (filled (shuffle rng deck)) as Hshuffled by by apply shuffle_from_filled.
  rewrite <- (cardsOf_filled _ Hshuffled). rewrite <- (cardsOf_filled _ Hfilled) in Hvalid.
  rewrite <- Hvalid. apply Hperm. unfold cardsOf.
  apply omap_Permutation. by apply shuffle_from_Permutation.
Qed.

Lemma isValidDeck_order_witness :
  isValidDeck (map Some (reverse getDeck)) = isValidDeck (map Some getDeck) /\
  isValidDeck (shuffle (fun n => n / 2) standardDeck) = Ok true.
Proof.
  pose proof (isValidDeck_order (reverse getDeck) getDeck (fun n => n / 2) standardDeck)
    as [Hperm Hshuffle].
  split.
  - apply Hperm. apply reverse_Permutation.
  - apply Hshuffle. by vm_compute.
Defined.

(** ** Snapshots *)

Lemma copy_rows (rows result : list (list slot)) :
  forEach rows (fun row result =>
    result ++ [forEach row (fun card rowCopy => rowCopy ++ [card]) []]) result
  = result ++ rows.
Proof.
  unfold forEach at 1. revert result. induction rows as [|row rows IH]; intros result; simpl.
  - by rewrite app_nil_r.
  - rewrite IH, forEach_push, <- app_assoc. done.
Qed.

(** X20: the snapshots agree with the engine: [getPyramid] returns the rows
    as the engine holds them, so that the slot at [(row, col)] of the
    snapshot is what [getCardAt(row, col)] returns, and on a started engine
    [getDrawCards] returns the draw pile slot for slot, empty slots
    included. *)
Theorem snapshots_agree (this : Model) :
  getPyramid this = pyramid this /\
  (forall row col c, getCardAt row col this = Ok c ->
     at_ (default [] (getPyramid this !! Z.to_nat row)) col = c) /\
  (gamestate this = STARTED -> getDrawCards this = Ok (draws this)) /\
  len (getPyramid this) = len (pyramid this).
Proof.
  assert (getPyramid this = pyramid this) as Hp by apply copy_rows.
  split; [done|]. split; [|split; [|by rewrite Hp]].
  - intros row col c Hget. apply getCardAt_Ok in Hget as (_ & _ & _ & ->). by rewrite Hp.
  - intros Hs. unfold getDrawCards, checkStarted. rewrite Hs. simpl. by rewrite forEach_push.
Qed.

Lemma snapshots_agree_witness :
  at_ (default [] (getPyramid smallGame !! 2)) 1 = Some (mkCard HEART 5) /\
  getDrawCards smallGame = Ok (draws smallGame).
Proof.
  pose proof (snapshots_agree smallGame) as (_ & Hcell & Hdraws & _).
  split.
  - apply (Hcell 2%Z 1%Z). by vm_compute.
  - apply Hdraws. reflexivity.
Defined.

(** ** Walking through the stock *)

Lemma discardDraw_step (drawIndex : Z) (this : Model) (c : Card) (front : Card)
    (rest : list slot) :
  gamestate this = STARTED -> (0 <= drawIndex < len (draws this))%Z ->
  at_ (draws this) drawIndex = Some c -> stock this = Some front :: rest ->
  exec (OpDiscardDraw drawIndex) this = (Ok RVoid, replenish drawIndex this).
Proof.
  intros Hs Hb Hat Hst. simpl. unfold void. rewrite discardDraw_cases, Hs, Hat, Hst.
  assert (((drawIndex <? 0) || (drawIndex >=? len (draws this)))%Z = false) as ->
    by (apply orb_false_iff; lia).
  simpl. done.
Qed.

Lemma play_cons_Ok (op : operation) (ops : list operation) (this this' : Model) (r : retval) :
  exec op this = (Ok r, this') -> play (op :: ops) this = play ops this'.
Proof. intros H. simpl. by rewrite H. Qed.

(** X21: discarding at one draw slot walks through the stock in order. On
    a started engine whose stock has no empty slot, [n] successive
    [discardDraw] calls on an in-bounds draw slot that holds a card all
    succeed when the stock holds at least [n] cards; afterwards the slot
    holds the [n]-th card of the former stock, the stock has lost its first
    [n] cards, and the pyramid and the other draw slots are as they
    were. *)
Theorem discardDraw_walks_stock (n : nat) (drawIndex : Z) (this : Model) (c : Card) :
  gamestate this = STARTED -> filled (stock this) ->
  (0 <= drawIndex < len (draws this))%Z -> at_ (draws this) drawIndex = Some c ->
  0 < n <= length (stock this) ->
  exists this',
    play (replicate n (OpDiscardDraw drawIndex)) this = Some this' /\
    at_ (draws this') drawIndex = at_ (stock this) (Z.of_nat n - 1) /\
    stock this' = drop n (stock this) /\
    pyramid this' = pyramid this /\
    (forall j, (0 <= j)%Z -> j <> drawIndex -> at_ (draws this') j = at_ (draws this) j).
Proof.
  revert this c. induction n as [|n IH]; intros this c Hs Hfilled Hb Hat Hn; [lia|].
  destruct (stock this) as [|front rest] eqn:Hst; [simpl in Hn; lia|].
  inversion Hfilled as [|? ? Hfront Hrest]; subst.
  destruct front as [front|]; [|done].
  change (replicate (S n) (OpDiscardDraw drawIndex))
    with (OpDiscardDraw drawIndex :: replicate n (OpDiscardDraw drawIndex)).
  rewrite (play_cons_Ok _ _ _ _ _ (discardDraw_step drawIndex this c front rest Hs Hb Hat Hst)).
  assert (at_ (draws (replenish drawIndex this)) drawIndex = Some front) as Hat'.
  { simpl. rewrite at_insert_eq by done. by rewrite Hst. }
  destruct n as [|n].
  - exists (replenish drawIndex this). simpl. rewrite Hst.
    split; [done|]. split; [by rewrite at_insert_eq|]. split; [by rewrite drop_0|].
    split; [done|]. intros j Hj Hne. apply at_insert_ne; lia.
  - destruct (IH (replenish drawIndex this) front) as (this' & Hplay & Hslot & Hstock & Hp & Ho).
    + done.
    + simpl. by rewrite Hst.
    + unfold len in *. simpl. by rewrite length_insert.
    + done.
    + simpl. rewrite Hst. simpl in *. lia.
    + exists this'. split; [done|]. simpl in Hslot, Hstock, Hp, Ho. rewrite Hst in *.
      simpl in Hslot, Hstock. split.
      * rewrite Hslot. unfold at_.
        destruct (Z.ltb_spec (Z.of_nat (S n) - 1) 0), (Z.ltb_spec (Z.of_nat (S (S n)) - 1) 0);
          try lia.
        replace (Z.to_nat (Z.of_nat (S (S n)) - 1)) with (S (Z.to_nat (Z.of_nat (S n) - 1)))
          by lia.
        done.
      * split; [done|]. split; [done|]. intros j Hj Hne. rewrite Ho by done.
        apply at_insert_ne; lia.
Qed.

Lemma discardDraw_walks_stock_witness :
  exists this',
    play (replicate 3 (OpDiscardDraw 1)) smallGame = Some this' /\
    at_ (draws this') 1 = Some (mkCard HEART 12) /\ length (stock this') = 40.
Proof.
  destruct (discardDraw_walks_stock 3 1 smallGame (mkCard HEART 8))
    as (this' & Hplay & Hslot & Hstock & _).
  - reflexivity.
  - apply (bool_decide_unpack _). by vm_compute.
  - by vm_compute.
  - reflexivity.
  - assert (length (stock smallGame) = 43) as -> by by vm_compute. lia.
  - exists this'. split; [exact Hplay|]. split; [by rewrite Hslot | by rewrite Hstock].
Defined.

(** ** Labels *)

Lemma getDeck_labels_NoDup : NoDup (map toString getDeck).
Proof. apply (bool_decide_unpack _). by vm_compute. Qed.

Lemma toString_inj (c1 c2 : Card) :
  (1 <= value c1 <= 13)%Z -> (1 <= value c2 <= 13)%Z ->
  toString c1 = toString c2 -> c1 = c2.
Proof.
  intros H1 H2 Heq.
  apply getDeck_complete, list_elem_of_In, list_elem_of_lookup_1 in H1 as [i Hi].
  apply getDeck_complete, list_elem_of_In, list_elem_of_lookup_1 in H2 as [j Hj].
  assert (i = j) as ->; [|congruence].
  apply (proj1 (NoDup_alt _) getDeck_labels_NoDup i j (toString c1)).
  - change (map toString getDeck) with (toString <$> getDeck).
    by rewrite list_lookup_fmap, Hi.
  - change (map toString getDeck) with (toString <$> getDeck).
    by rewrite list_lookup_fmap, Hj, Heq.
Qed.

(** X22: the label of a card identifies it: two cards with ranks between
    1 and 13 that [toString] maps to the same label are the same card. *)
Theorem toString_identifies_card (c1 c2 : Card) :
  (1 <= value c1 <= 13)%Z -> (1 <= value c2 <= 13)%Z ->
  toString c1 = toString c2 -> c1 = c2.
Proof. apply toString_inj. Qed.

Lemma toString_identifies_card_witness :
  toString (mkCard SPADE 10) = toString (mkCard SPADE 10) /\
  mkCard SPADE 10 = mkCard SPADE 10.
Proof.
  split; [reflexivity|].
  apply (toString_identifies_card (mkCard SPADE 10) (mkCard SPADE 10)); simpl; (lia || done).
Defined.

(** X23: [getMatchingCard] finds a card again from its label: in an array
    whose slots all hold cards with ranks between 1 and 13, searching for
    the label of a card of the array returns that card. When no slot holds
    a card with the label, the search ends with the error "No card with the
    given label" if no slot is empty, and with the [TypeError] of
    [toString] on [null] if a slot is empty. *)
Theorem getMatchingCard_finds (cards : list slot) (c : Card) (label : string) :
  (filled cards ->
   (forall c', Some c' ∈ cards -> (1 <= value c' <= 13)%Z) ->
   Some c ∈ cards -> getMatchingCard (toString c) cards = Matching c) /\
  ((forall c', Some c' ∈ cards -> toString c' <> label) ->
   getMatchingCard label cards =
     if bool_decide (filled cards) then NoCardWithLabel else ToStringOfNull).
Proof.
  split.
  - intros Hfilled Hranks Hc. induction Hfilled as [|[c0|] cards H0 Hfilled IH]; simpl.
    + by apply elem_of_nil in Hc.
    + destruct (String.eqb_spec (toString c0) (toString c)) as [Heq|Hne].
      * f_equal. apply toString_inj; [apply Hranks; by left | by apply Hranks | done].
      * apply IH; [intros c' Hc'; apply Hranks; by right|].
        apply elem_of_cons in Hc as [[= ->]|Hc]; done.
    + done.
  - intros Hnone. induction cards as [|[c0|] cards IH]; cbn [getMatchingCard].
    + rewrite bool_decide_eq_true_2; [done | constructor].
    + destruct (String.eqb_spec (toString c0) label) as [Heq|Hne].
      { exfalso. apply (Hnone c0); [by left | done]. }
      rewrite IH by (intros c' Hc'; apply Hnone; by right).
      repeat case_bool_decide; try done.
      * exfalso. match goal with H : ~ filled (_ :: _) |- _ => apply H end. by constructor.
      * exfalso. match goal with H : filled (_ :: _) |- _ => inversion H; subst end. done.
    + rewrite bool_decide_eq_false_2; [done|]. intros Hf. by inversion Hf.
Qed.

Lemma getMatchingCard_finds_witness :
  getMatchingCard (toString (mkCard HEART 8)) (draws smallGame) = Matching (mkCard HEART 8).
Proof.
  assert (draws smallGame =
          [Some (mkCard HEART 7); Some (mkCard HEART 8); Some (mkCard HEART 9)]) as ->
    by by vm_compute.
  apply (proj1 (getMatchingCard_finds _ (mkCard HEART 8) "")).
  - by repeat constructor.
  - intros c' Hc'.
    repeat (apply elem_of_cons in Hc' as [[= ->]|Hc']; [simpl; lia|]).
    by apply elem_of_nil in Hc'.
  - right. by left.
Defined.
